(** * RAG-app: the ingest and query pipelines of [main.py] and the loaders of
    [data_loader.py], as a shallow embedding.

    Python [str] values are UTF-8 encoded byte strings ([string]); Python
    exceptions are values of [exn]; the external collaborators (the Bedrock
    runtime client, the PDF reader) are oracles that answer from the history
    of the calls made so far, and every call is recorded in the [world]. *)

From Stdlib Require Import ZArith QArith Ascii String DecimalString DecimalNat.
From stdpp Require Import gmap strings list fin_maps sorting.

Local Open Scope string_scope.
Local Open Scope list_scope.
Local Open Scope Z_scope.

(** ** Python values *)

#[local] Set Warnings "-register-all".

(** A decoded JSON document, as [json.loads] returns it.  Numbers are kept as
    their literal: the pipelines only carry them around. *)
Inductive json : Type :=
  | JNull
  | JBool (b : bool)
  | JNumber (literal : string)
  | JStr (s : string)
  | JArr (items : list json)
  | JObj (fields : list (string * json)).

(** A raised Python exception: its class and its message. *)
Inductive exn : Type := PyExc (cls msg : string).

Definition exc_class (e : exn) : string := let 'PyExc c _ := e in c.

Definition AttributeError := PyExc "AttributeError".
Definition IndexError := PyExc "IndexError".
Definition KeyError := PyExc "KeyError".
Definition TypeError := PyExc "TypeError".
Definition ValidationError := PyExc "ValidationError".

(** The outcome of a call: a returned value or a raised exception. *)
Inductive outcome (A : Type) : Type :=
  | Returned (a : A)
  | Raised (e : exn).
Arguments Returned {A} a.
Arguments Raised {A} e.

(** [d[k]] lookup in the field list of a dict. *)
Fixpoint dict_lookup (k : string) (fields : list (string * json)) : option json :=
  match fields with
  | [] => None
  | (k', v) :: rest => if String.eqb k k' then Some v else dict_lookup k rest
  end.

(** [o.get(k, default)]: only a dict has the method. *)
Definition py_get (o : json) (k : string) (default : json) : outcome json :=
  match o with
  | JObj fields => Returned (from_option id default (dict_lookup k fields))
  | _ => Raised (AttributeError "object has no attribute 'get'")
  end.

(** [o[0]]. *)
Definition py_index0 (o : json) : outcome json :=
  match o with
  | JArr (x :: _) => Returned x
  | JArr [] => Raised (IndexError "list index out of range")
  | JStr (String c _) => Returned (JStr (String c EmptyString))
  | JStr EmptyString => Raised (IndexError "string index out of range")
  | JObj _ => Raised (KeyError "0")
  | _ => Raised (TypeError "object is not subscriptable")
  end.

(** ** [str] helpers *)

(** The UTF-8 encodings of the code points for which [str.isspace] holds. *)
Definition chr (n : N) : string := String (ascii_of_N n) EmptyString.

Definition whitespace : list string :=
  (chr <$> [9; 10; 11; 12; 13; 28; 29; 30; 31; 32]%N) ++
  [chr 194 +:+ chr 133; chr 194 +:+ chr 160; chr 225 +:+ chr 154 +:+ chr 128] ++
  ((λ n, chr 226 +:+ chr 128 +:+ chr n) <$>
     [128; 129; 130; 131; 132; 133; 134; 135; 136; 137; 138; 168; 169; 175]%N) ++
  [chr 226 +:+ chr 129 +:+ chr 159; chr 227 +:+ chr 128 +:+ chr 128].

Fixpoint strip_prefix (p s : string) : option string :=
  match p, s with
  | EmptyString, _ => Some s
  | String a p', String b s' => if Ascii.eqb a b then strip_prefix p' s' else None
  | String _ _, EmptyString => None
  end.

(** Remove one leading whitespace character, if there is one. *)
Fixpoint lstrip1 (ws : list string) (s : string) : option string :=
  match ws with
  | [] => None
  | w :: ws' =>
      match strip_prefix w s with
      | Some s' => Some s'
      | None => lstrip1 ws' s
      end
  end.

Fixpoint lstrip_fuel (fuel : nat) (ws : list string) (s : string) : string :=
  match fuel with
  | O => s
  | S fuel' =>
      match lstrip1 ws s with
      | Some s' => lstrip_fuel fuel' ws s'
      | None => s
      end
  end.

Definition lstrip (s : string) : string := lstrip_fuel (String.length s) whitespace s.

Definition string_rev (s : string) : string :=
  string_of_list_ascii (rev (list_ascii_of_string s)).

Definition rstrip (s : string) : string :=
  string_rev (lstrip_fuel (String.length s) (string_rev <$> whitespace) (string_rev s)).

(** [s.strip()] *)
Definition strip (s : string) : string := rstrip (lstrip s).

(** [sep.join(parts)] *)
Fixpoint join (sep : string) (parts : list string) : string :=
  match parts with
  | [] => ""
  | [p] => p
  | p :: rest => p +:+ sep +:+ join sep rest
  end.

(** [str(i)] for a list index. *)
Definition str_of_nat (i : nat) : string := NilEmpty.string_of_uint (Nat.to_uint i).

(** ** [uuid.uuid5]: SHA-1 of the namespace bytes followed by the name *)

Module SHA1.

Definition word (x : Z) : Z := Z.land x 0xFFFFFFFF.
Definition rotl (n x : Z) : Z :=
  word (Z.lor (Z.shiftl x n) (Z.shiftr (word x) (32 - n))).

Fixpoint be_bytes (n : nat) (x : Z) : list Z :=
  match n with
  | O => []
  | S n' => be_bytes n' (Z.shiftr x 8) ++ [Z.land x 0xFF]
  end.

Definition be_int (bs : list Z) : Z := foldl (λ acc b, Z.lor (Z.shiftl acc 8) b) 0 bs.

Definition pad (msg : list Z) : list Z :=
  let len := Z.of_nat (length msg) in
  let zeros := Z.to_nat ((55 - len) mod 64) in
  msg ++ [0x80] ++ replicate zeros 0 ++ be_bytes 8 (len * 8).

Fixpoint chunks_of (fuel n : nat) (bs : list Z) : list (list Z) :=
  match fuel, bs with
  | O, _ | _, [] => []
  | S fuel', _ => take n bs :: chunks_of fuel' n (drop n bs)
  end.

(** The message schedule, newest word first. *)
Fixpoint expand (n : nat) (ws : list Z) : list Z :=
  match n with
  | O => ws
  | S n' =>
      let w i := nth i ws 0 in
      expand n' (rotl 1 (Z.lxor (Z.lxor (w 2%nat) (w 7%nat)) (Z.lxor (w 13%nat) (w 15%nat))) :: ws)
  end.

Definition schedule (block : list Z) : list Z :=
  rev (expand 64 (rev (be_int <$> chunks_of 16 4 block))).

Definition state : Type := Z * Z * Z * Z * Z.

Definition round (st : state) (tw : nat * Z) : state :=
  let '(a, b, c, d, e) := st in
  let '(t, w) := tw in
  let '(f, k) :=
    if (t <? 20)%nat then (Z.lor (Z.land b c) (Z.land (word (Z.lnot b)) d), 0x5A827999)
    else if (t <? 40)%nat then (Z.lxor (Z.lxor b c) d, 0x6ED9EBA1)
    else if (t <? 60)%nat then
      (Z.lor (Z.lor (Z.land b c) (Z.land b d)) (Z.land c d), 0x8F1BBCDC)
    else (Z.lxor (Z.lxor b c) d, 0xCA62C1D6) in
  (word (rotl 5 a + f + e + k + w), a, rotl 30 b, c, d).

Definition compress (h : state) (block : list Z) : state :=
  let ws := schedule block in
  let '(a, b, c, d, e) := foldl round h (zip (seq 0 80) ws) in
  let '(h0, h1, h2, h3, h4) := h in
  (word (h0 + a), word (h1 + b), word (h2 + c), word (h3 + d), word (h4 + e)).

Definition digest (msg : list Z) : list Z :=
  let padded := pad msg in
  let '(h0, h1, h2, h3, h4) :=
    foldl compress (0x67452301, 0xEFCDAB89, 0x98BADCFE, 0x10325476, 0xC3D2E1F0)
          (chunks_of (length padded) 64 padded) in
  be_bytes 4 h0 ++ be_bytes 4 h1 ++ be_bytes 4 h2 ++ be_bytes 4 h3 ++ be_bytes 4 h4.

End SHA1.

Definition bytes_of_string (s : string) : list Z :=
  (λ a, Z.of_N (N_of_ascii a)) <$> list_ascii_of_string s.

Definition hex_digit (d : Z) : string :=
  chr (Z.to_N (if d <? 10 then 48 + d else 87 + d)).

Definition hex_byte (b : Z) : string := hex_digit (Z.shiftr b 4) +:+ hex_digit (Z.land b 15).

Definition hex (bs : list Z) : string := foldr (λ b acc, hex_byte b +:+ acc) "" bs.

(** [uuid.NAMESPACE_URL.bytes] *)
Definition NAMESPACE_URL : list Z :=
  [0x6b; 0xa7; 0xb8; 0x11; 0x9d; 0xad; 0x11; 0xd1; 0x80; 0xb4; 0x00; 0xc0; 0x4f; 0xd4; 0x30; 0xc8].

(** [str(uuid.uuid5(namespace, name))]: the first 16 bytes of the digest with
    the version (5) and the RFC 4122 variant set, in 8-4-4-4-12 form. *)
Definition uuid5 (namespace : list Z) (name : string) : string :=
  let h := take 16 (SHA1.digest (namespace ++ bytes_of_string name)) in
  let set_version i b :=
    if (i =? 6)%nat then Z.lor (Z.land b 0x0F) 0x50
    else if (i =? 8)%nat then Z.lor (Z.land b 0x3F) 0x80
    else b in
  let bs := imap set_version h in
  hex (take 4 bs) +:+ "-" +:+ hex (take 2 (drop 4 bs)) +:+ "-" +:+ hex (take 2 (drop 6 bs))
    +:+ "-" +:+ hex (take 2 (drop 8 bs)) +:+ "-" +:+ hex (drop 10 bs).

(** ** The world and the collaborators *)

(** [bedrock_client.invoke_model(body=..., modelId=..., accept=..., contentType=...)];
    [body] is the document handed to [json.dumps]. *)
Record request : Type := InvokeModel {
  body : json;
  modelId : string;
  accept : string;
  contentType : string
}.

(** A page object returned by [PDFReader().load_data]; [d_text] is what
    [getattr(d, "text", None)] gives. *)
Record Document : Type := { d_text : option string }.

(** The payload stored with a vector: [{"source": ..., "text": ...}]. *)
Record payload : Type := { source : string; text : string }.

(** Declarations of [custom_types], as [main.py] constructs and reads them. *)
Record RAGChunkAndSrc : Type := { chunks : list string; source_id : string }.
Record RAGUpsertResult : Type := { ingested : nat }.
Record RAGSearchResult : Type := { contexts : list string; sources : list string }.

(** A call on a [QdrantStorage()] object. *)
Inductive store_call : Type :=
  | Upsert (ids : list string) (vecs : list json) (payloads : list payload)
  | Search (query_vec : json) (top_k : Z).

(** The result a step record keeps. *)
Inductive step_value : Type :=
  | VChunkAndSrc (r : RAGChunkAndSrc)
  | VUpsertResult (r : RAGUpsertResult)
  | VSearchResult (r : RAGSearchResult)
  | VDict (d : json).

Inductive status : Type := pending | succeeded | failed.

Record step_record : Type := StepRecord {
  st_status : status;
  st_result : option step_value;
  st_attempt : nat
}.

Record world : Type := World {
  bedrock_calls : list request;        (* requests sent to Bedrock, oldest first *)
  pdf_reads : list string;             (* paths handed to the PDF reader *)
  store_calls : list store_call;       (* calls on the vector store *)
  points : gmap string (json * payload);            (* the stored collection *)
  step_records : gmap (string * string) step_record; (* keyed by (runId, stepName) *)
  invocations : list (string * string)  (* step functions the executor invoked *)
}.

(** The collaborators of the pipelines.  Each external service answers from
    the calls it has received before and the current one. *)
Record services : Type := Services {
  bedrock_client : list request → request → outcome json;
  PDFReader : list string → string → outcome (list Document);
  sentence_boundary : list ascii → nat;
  qdrant_fault : list store_call → store_call → option exn;
  similarity : json → json → Q
}.

(** ** Stateful, failing computations *)

Definition M (A : Type) : Type := world → outcome A * world.

Definition ret {A} (a : A) : M A := λ w, (Returned a, w).
Definition raise {A} (e : exn) : M A := λ w, (Raised e, w).
Definition bind {A B} (m : M A) (k : A → M B) : M B :=
  λ w, match m w with
       | (Returned a, w') => k a w'
       | (Raised e, w') => (Raised e, w')
       end.
Definition lift {A} (o : outcome A) : M A := λ w, (o, w).

Notation "x <~ m ;; k" := (bind m (λ x, k))
  (at level 100, m at next level, right associativity).
Notation "m ;;; k" := (bind m (λ _, k))
  (at level 100, right associativity).

Definition log_bedrock (r : request) (w : world) : world :=
  World (bedrock_calls w ++ [r]) (pdf_reads w) (store_calls w) (points w)
        (step_records w) (invocations w).
Definition log_read (path : string) (w : world) : world :=
  World (bedrock_calls w) (pdf_reads w ++ [path]) (store_calls w) (points w)
        (step_records w) (invocations w).
Definition log_store (c : store_call) (w : world) : world :=
  World (bedrock_calls w) (pdf_reads w) (store_calls w ++ [c]) (points w)
        (step_records w) (invocations w).
Definition set_points (pts : gmap string (json * payload)) (w : world) : world :=
  World (bedrock_calls w) (pdf_reads w) (store_calls w) pts
        (step_records w) (invocations w).
Definition set_step (key : string * string) (r : step_record) (w : world) : world :=
  World (bedrock_calls w) (pdf_reads w) (store_calls w) (points w)
        (<[key := r]> (step_records w)) (invocations w).
Definition log_invocation (key : string * string) (w : world) : world :=
  World (bedrock_calls w) (pdf_reads w) (store_calls w) (points w)
        (step_records w) (invocations w ++ [key]).

(** [json.loads(bedrock_client.invoke_model(...).get("body").read())] *)
Definition invoke_model (svc : services) (r : request) : M json :=
  λ w, (bedrock_client svc (bedrock_calls w) r, log_bedrock r w).

(** [PDFReader().load_data(file=path)] *)
Definition load_data (svc : services) (path : string) : M (list Document) :=
  λ w, (PDFReader svc (pdf_reads w) path, log_read path w).

(** ** data_loader.py *)

Definition EMBED_MODEL : string := "amazon.titan-embed-text-v2:0".

Definition embed_request (text : string) : request :=
  {| body := JObj [("inputText", JStr text)];
     modelId := EMBED_MODEL;
     accept := "application/json";
     contentType := "application/json" |}.

(** The [for text in texts] loop of [embed_texts], from the accumulator
    [all_embeddings]. *)
Fixpoint embed_loop (svc : services) (texts : list string) (all_embeddings : list json)
  : M (list json) :=
  match texts with
  | [] => ret all_embeddings
  | text :: rest =>
      response_body <~ invoke_model svc (embed_request text) ;;
      embedding <~ lift (py_get response_body "embedding" JNull) ;;
      embed_loop svc rest (all_embeddings ++ [embedding])
  end.

Definition embed_texts (svc : services) (texts : list string) : M (list json) :=
  embed_loop svc texts [].

(** ** The chunker *)

Section Chunker.
Context {A : Type}.
Variables (size overlap : nat) (boundary : list A → nat).

(** Modelled from the spec: the chunker [chunk(text, size, overlap)] (the
    repository takes it from the [SentenceSplitter] of a library whose code
    is not part of it).  A chunk ends at the semantic boundary proposed by
    [boundary] where that is possible, that is where it leaves a chunk
    longer than [overlap] and no longer than [size]; otherwise the cut is
    hard, at [size]. *)
Definition cut (rest : list A) : nat :=
  let b := boundary rest in
  if ((overlap <? b) && (b <=? size))%nat then b else size.

(** Modelled from the spec: the chunks of [rest], the text from the start of
    the current chunk on.  The next chunk starts [overlap] before the end
    of the current one, so that the trailing [overlap]-sized slice of each
    chunk is copied into the start of the next. *)
Fixpoint chunk_from (fuel : nat) (rest : list A) : list (list A) :=
  match fuel with
  | O => []
  | S fuel' =>
      let n := cut rest in
      if (length rest <=? n)%nat then [rest]
      else take n rest :: chunk_from fuel' (drop (n - overlap) rest)
  end.

(** Modelled from the spec: [chunk(text, size, overlap)]. *)
Definition chunk (text : list A) : list (list A) :=
  match text with
  | [] => []
  | _ => chunk_from (length text) text
  end.

(** Concatenation of chunks with the leading [overlap]-sized slice trimmed
    from every chunk but the first. *)
Definition unoverlap (cs : list (list A)) : list A :=
  match cs with
  | [] => []
  | c :: cs' => c ++ concat (drop overlap <$> cs')
  end.
End Chunker.

(** [splitter = SentenceSplitter(chunk_size=1000, chunk_overlap=200)] and its
    [split_text]. *)
Definition chunk_size : nat := 1000.
Definition chunk_overlap : nat := 200.

Definition split_text (svc : services) (t : string) : list string :=
  string_of_list_ascii <$>
    chunk chunk_size chunk_overlap (sentence_boundary svc) (list_ascii_of_string t).

(** Truth value of [getattr(d, "text", None)]. *)
Definition truthy_text (d : Document) : option string :=
  match d_text d with
  | Some EmptyString | None => None
  | Some t => Some t
  end.

Definition load_and_chunk_pdf (svc : services) (path : string) : M (list string) :=
  docs <~ load_data svc path ;;
  let texts := omap truthy_text docs in
  ret (foldl (λ chunks t, chunks ++ split_text svc t) [] texts).

(** ** The vector store *)

(** An entry of a [SearchResult]: [(text, source, score)]. *)
Record hit : Type := { hit_text : string; hit_source : string; hit_score : Q }.

Definition by_score_desc (a b : hit) : Prop := (hit_score b <= hit_score a)%Q.

#[global] Instance by_score_desc_dec : RelDecision by_score_desc :=
  λ a b, decide (Qnum (hit_score b) * QDen (hit_score a)
                 ≤ Qnum (hit_score a) * QDen (hit_score b))%Z.

(** Modelled from the spec: [upsert] of the vector store, whose code
    ([vector_db.py]) is not available.  Records are written in order under
    their id; a later write to an id replaces the earlier one. *)
Definition upsert_points (recs : list (string * (json * payload)))
    (pts : gmap string (json * payload)) : gmap string (json * payload) :=
  foldl (λ m r, <[r.1 := r.2]> m) pts recs.

(** Modelled from the spec: the ranking of [search] of the vector store
    ([vector_db.py] is not available): the [top_k] stored records nearest to
    the query under the store's metric, by descending score. *)
Definition nearest (svc : services) (query_vec : json) (top_k : Z)
    (pts : gmap string (json * payload)) : list hit :=
  take (Z.to_nat top_k)
    (merge_sort by_score_desc
       ((λ r, {| hit_text := text r.2.2; hit_source := source r.2.2;
                 hit_score := similarity svc query_vec r.2.1 |}) <$> map_to_list pts)).

(** A call on the store: it is logged, and a fault of the store is raised. *)
Definition store_request {A} (svc : services) (c : store_call) (k : world → A * world)
  : M A :=
  λ w, match qdrant_fault svc (store_calls w) c with
       | Some e => (Raised e, log_store c w)
       | None => let '(a, w') := k (log_store c w) in (Returned a, w')
       end.

(** Modelled from the spec: [QdrantStorage().upsert(ids, vecs, payloads)]. *)
Definition QdrantStorage_upsert (svc : services)
    (ids : list string) (vecs : list json) (payloads : list payload) : M unit :=
  store_request svc (Upsert ids vecs payloads)
    (λ w, (tt, set_points (upsert_points (zip ids (zip vecs payloads)) (points w)) w)).

(** Modelled from the spec: [QdrantStorage().search(query_vec, top_k)], the
    ranked records projected to order-aligned contexts and sources. *)
Definition QdrantStorage_search (svc : services) (query_vec : json) (top_k : Z)
  : M RAGSearchResult :=
  store_request svc (Search query_vec top_k)
    (λ w, let found := nearest svc query_vec top_k (points w) in
          ({| contexts := hit_text <$> found; sources := hit_source <$> found |}, w)).

(** ** The step executor *)

(** A type a step can return: how its values are kept in a step record. *)
Class StepOutput (A : Type) : Type := {
  to_value : A → step_value;
  of_value : step_value → option A;
  of_to_value : ∀ a, of_value (to_value a) = Some a
}.

#[global, refine] Instance RAGChunkAndSrc_output : StepOutput RAGChunkAndSrc :=
  {| to_value := VChunkAndSrc;
     of_value v := match v with VChunkAndSrc r => Some r | _ => None end |}.
Proof. reflexivity. Defined.

#[global, refine] Instance RAGUpsertResult_output : StepOutput RAGUpsertResult :=
  {| to_value := VUpsertResult;
     of_value v := match v with VUpsertResult r => Some r | _ => None end |}.
Proof. reflexivity. Defined.

#[global, refine] Instance RAGSearchResult_output : StepOutput RAGSearchResult :=
  {| to_value := VSearchResult;
     of_value v := match v with VSearchResult r => Some r | _ => None end |}.
Proof. reflexivity. Defined.

#[global, refine] Instance dict_output : StepOutput json :=
  {| to_value := VDict;
     of_value v := match v with VDict d => Some d | _ => None end |}.
Proof. reflexivity. Defined.

(** The attempts recorded for a step so far. *)
Definition attempts (r : option step_record) : nat := from_option st_attempt 0%nat r.

(** The result a succeeded step record holds. *)
Definition cached (r : option step_record) : option step_value :=
  match r with
  | Some (StepRecord succeeded (Some v) _) => Some v
  | _ => None
  end.

(** Modelled from the spec: [ctx.step.run(step_name, fn, output_type=A)] of
    the workflow engine (a library whose code is not part of the
    repository).  A succeeded record answers from its result; otherwise
    [fn] is invoked and its outcome is recorded. *)
Definition step_run {A} `{StepOutput A} (run_id step_name : string) (fn : M A) : M A :=
  λ w,
    let key := (run_id, step_name) in
    let r := step_records w !! key in
    match cached r with
    | Some v =>
        (match of_value v with
         | Some a => Returned a
         | None => Raised (ValidationError step_name)
         end, w)
    | None =>
        let n := attempts r in
        match fn (log_invocation key (set_step key (StepRecord pending None n) w)) with
        | (Returned a, w') =>
            (Returned a, set_step key (StepRecord succeeded (Some (to_value a)) n) w')
        | (Raised e, w') =>
            (Raised e, set_step key (StepRecord failed None (S n)) w')
        end
    end.

(** ** main.py *)

(** [inngest.Context], for an event whose data has type [E]. *)
Record Context (E : Type) : Type := { run_id : string; event_data : E }.
Arguments run_id {E} c.
Arguments event_data {E} c.

(** The data of a [rag/ingest_pdf] event. *)
Record ingest_event : Type := { pdf_path : string; ev_source_id : option string }.

(** The data of a [rag/query_pdf_ai] event. *)
Record query_event : Type := { question : string; ev_top_k : option Z }.

Definition _load (svc : services) (ctx : Context ingest_event) : M RAGChunkAndSrc :=
  let pdf_path := pdf_path (event_data ctx) in
  let source_id := default pdf_path (ev_source_id (event_data ctx)) in
  chunks <~ load_and_chunk_pdf svc pdf_path ;;
  ret {| chunks := chunks; source_id := source_id |}.

(** [str(uuid.uuid5(uuid.NAMESPACE_URL, f"{source_id}:{i}"))] *)
Definition chunk_id (source_id : string) (i : nat) : string :=
  uuid5 NAMESPACE_URL (source_id +:+ ":" +:+ str_of_nat i).

Definition _upsert (svc : services) (chunks_and_src : RAGChunkAndSrc) : M RAGUpsertResult :=
  let chunks := chunks chunks_and_src in
  let source_id := source_id chunks_and_src in
  vecs <~ embed_texts svc chunks ;;
  let ids := (λ i, chunk_id source_id i) <$> seq 0 (length chunks) in
  let payloads :=
    (λ i, {| source := source_id; text := chunks !!! i |}) <$> seq 0 (length chunks) in
  QdrantStorage_upsert svc ids vecs payloads ;;;
  ret {| ingested := length chunks |}.

(** [ingested.model_dump()] *)
Definition model_dump (r : RAGUpsertResult) : json :=
  JObj [("ingested", JNumber (str_of_nat (ingested r)))].

Definition rag_ingest_pdf (svc : services) (ctx : Context ingest_event) : M json :=
  chunks_and_src <~ step_run (run_id ctx) "load-and-chunk" (_load svc ctx) ;;
  ingested <~ step_run (run_id ctx) "embed-and-upsert" (_upsert svc chunks_and_src) ;;
  ret (model_dump ingested).

Definition _search (svc : services) (question : string) (top_k : Z) : M RAGSearchResult :=
  vecs <~ embed_texts svc [question] ;;
  query_vec <~ lift (py_index0 (JArr vecs)) ;;
  found <~ QdrantStorage_search svc query_vec top_k ;;
  ret {| contexts := contexts found; sources := sources found |}.

Definition user_content (context_block question : string) : string :=
  "Use the following context to answer the question. " +:+ chr 10 +:+ chr 10 +:+
  "Context:" +:+ chr 10 +:+ context_block +:+ chr 10 +:+ chr 10 +:+
  "Question: " +:+ question +:+ chr 10 +:+
  "Answer concisely using the context above.".

Definition llm_request (context_block question : string) : request :=
  {| body := JObj [
       ("anthropic_version", JStr "bedrock-2023-05-31");
       ("max_tokens", JNumber "1024");
       ("temperature", JNumber "0.2");
       ("system", JStr "You answer questions using only the provided context.");
       ("messages", JArr [JObj [("role", JStr "user");
                                ("content", JStr (user_content context_block question))]])];
     modelId := "anthropic.claude-3-haiku-20240307-v1:0";
     accept := "application/json";
     contentType := "application/json" |}.

Definition _invoke_llm (svc : services) (context_block question : string) : M json :=
  invoke_model svc (llm_request context_block question).

(** ["\n\n".join(f"- {c}" for c in found.contexts)] *)
Definition context_block_of (contexts : list string) : string :=
  join (chr 10 +:+ chr 10) ((λ c, "- " +:+ c) <$> contexts).

(** [res.get("content", [{}])[0].get("text", "").strip()] *)
Definition answer_of (res : json) : outcome string :=
  match py_get res "content" (JArr [JObj []]) with
  | Raised e => Raised e
  | Returned content =>
      match py_index0 content with
      | Raised e => Raised e
      | Returned first =>
          match py_get first "text" (JStr "") with
          | Raised e => Raised e
          | Returned (JStr s) => Returned (strip s)
          | Returned _ => Raised (AttributeError "object has no attribute 'strip'")
          end
      end
  end.

Definition query_result (answer : string) (found : RAGSearchResult) : json :=
  JObj [("answer", JStr answer);
        ("sources", JArr (JStr <$> sources found));
        ("num_contexts", JNumber (str_of_nat (length (contexts found))))].

Definition rag_query_pdf_ai (svc : services) (ctx : Context query_event) : M json :=
  let question := question (event_data ctx) in
  let top_k := default 5 (ev_top_k (event_data ctx)) in
  found <~ step_run (run_id ctx) "embed-and-search" (_search svc question top_k) ;;
  let context_block := context_block_of (contexts found) in
  res <~ step_run (run_id ctx) "llm-answer-bedrock" (_invoke_llm svc context_block question) ;;
  answer <~ lift (answer_of res) ;;
  ret (query_result answer found).

(** ** Observations on a run *)

(** The world after the requests [rs] have been sent to Bedrock. *)
Definition logged (rs : list request) (w : world) : world :=
  foldl (λ w r, log_bedrock r w) w rs.

(** What one pass of the loop of [embed_texts] obtains for [text] when the
    requests [before] have been sent: the ["embedding"] field of the decoded
    response. *)
Definition embedding1 (svc : services) (before : list request) (text : string)
  : outcome json :=
  match bedrock_client svc before (embed_request text) with
  | Returned response_body => py_get response_body "embedding" JNull
  | Raised e => Raised e
  end.

(** The embedding of the text at position [i] of the batch [texts]. *)
Definition embedding_of (svc : services) (before : list request) (texts : list string)
    (i : nat) (text : string) : outcome json :=
  embedding1 svc (before ++ (embed_request <$> take i texts)) text.

(** The chunks of a text, put back together. *)
Definition rejoin (cs : list string) : string :=
  string_of_list_ascii (unoverlap chunk_overlap (list_ascii_of_string <$> cs)).

(** The chunks the loop of [load_and_chunk_pdf] makes of the pages [docs]. *)
Definition page_chunks (svc : services) (docs : list Document) : list string :=
  foldl (λ chunks t, chunks ++ split_text svc t) [] (omap truthy_text docs).

(** The name [_upsert] hashes for the chunk at index [i]: [f"{source_id}:{i}"]. *)
Definition chunk_name (source_id : string) (i : nat) : string :=
  source_id +:+ ":" +:+ str_of_nat i.

(** [s] starts, respectively ends, with a whitespace character. *)
Definition starts_with_space (s : string) : Prop := is_Some (lstrip1 whitespace s).

Definition ends_with_space (s : string) : Prop :=
  is_Some (lstrip1 (string_rev <$> whitespace) (string_rev s)).

(** The ids and the payloads [_upsert] builds for a batch of chunks. *)
Definition ids_of (cs : RAGChunkAndSrc) : list string :=
  (λ i, chunk_id (source_id cs) i) <$> seq 0 (length (chunks cs)).

Definition payloads_of (cs : RAGChunkAndSrc) : list payload :=
  (λ i, {| source := source_id cs; text := chunks cs !!! i |}) <$> seq 0 (length (chunks cs)).

(** The claim that a failed batch reports which text failed: some reading
    [index_of] of the raised exception gives the position of the first text
    whose embedding call raised. *)
Definition error_carries_index (index_of : exn → option nat) : Prop :=
  ∀ svc texts w i text e0,
    texts !! i = Some text →
    (∀ j t, (j < i)%nat → texts !! j = Some t →
       ∃ v, embedding_of svc (bedrock_calls w) texts j t = Returned v) →
    embedding_of svc (bedrock_calls w) texts i text = Raised e0 →
    ∃ e w', embed_texts svc texts w = (Raised e, w') ∧
            exc_class e = "EmbeddingFailure" ∧ index_of e = Some i.

(** ** Test doubles *)

Module Doubles.

(** An embedding endpoint that answers every text but ["boom"], on which it
    is throttled, and a generation endpoint that answers with [reply]. *)
Definition bedrock (reply : outcome json) (history : list request) (r : request)
  : outcome json :=
  if String.eqb (modelId r) EMBED_MODEL then
    match body r with
    | JObj [(_, JStr "boom")] => Raised (PyExc "ClientError" "ThrottlingException")
    | JObj [(_, JStr t)] =>
        Returned (JObj [("embedding", JArr [JNumber (str_of_nat (String.length t))])])
    | _ => Raised (PyExc "ClientError" "ValidationException")
    end
  else reply.

(** The same endpoint, down for its first [n] calls. *)
Definition flaky (n : nat) (reply : outcome json) (history : list request) (r : request)
  : outcome json :=
  if (length history <? n)%nat then Raised (PyExc "ReadTimeoutError" "timed out")
  else bedrock reply history r.

Definition reader (history : list string) (path : string) : outcome (list Document) :=
  if String.eqb path "doc.pdf" then
    Returned [ {| d_text := Some "One paragraph." |}; {| d_text := Some "" |};
               {| d_text := None |}; {| d_text := Some "Second page." |} ]
  else if String.eqb path "blank.pdf" then Returned [ {| d_text := Some "" |} ]
  else Raised (PyExc "FileNotFoundError" path).

(** Similarity by the first component of the stored vector. *)
Definition first_component (query_vec v : json) : Q :=
  match v with
  | JArr (JNumber n :: _) => inject_Z (Z.of_nat (String.length n))
  | _ => 0%Q
  end.

Definition answered : outcome json :=
  Returned
    (JObj [("content", JArr [JObj [("type", JStr "text"); ("text", JStr " Paris. ")]])]).

Definition timed_out : outcome json := Raised (PyExc "ReadTimeoutError" "timed out").

Definition services_of (client : list request → request → outcome json) : services :=
  {| bedrock_client := client;
     PDFReader := reader;
     sentence_boundary := λ _, 0%nat;
     qdrant_fault := λ _ _, None;
     similarity := first_component |}.

Definition empty_world : world := World [] [] [] ∅ ∅ [].

Definition ingest_ctx : Context ingest_event :=
  {| run_id := "run-1";
     event_data := {| pdf_path := "doc.pdf"; ev_source_id := Some "doc1" |} |}.

Definition query_ctx : Context query_event :=
  {| run_id := "run-2";
     event_data := {| question := "What is X?"; ev_top_k := Some 3 |} |}.

End Doubles.

Import Doubles.

Module Malformed.

(** An embedding endpoint whose answer for ["gap"] has no embedding and whose
    answer for ["list"] is not a dict. *)
Definition sparse (history : list request) (r : request) : outcome json :=
  match body r with
  | JObj [(_, JStr "gap")] => Returned (JObj [("inputTextTokenCount", JNumber "1")])
  | JObj [(_, JStr "list")] => Returned (JArr [])
  | _ => bedrock answered history r
  end.


End Malformed.

Import Malformed.


(** * Properties *)

#[local] Set Warnings "-clear-no-such-hyp".

(** ** The loop of [embed_texts] *)

Lemma logged_app rs1 rs2 w : logged (rs1 ++ rs2) w = logged rs2 (logged rs1 w).
Proof. unfold logged. apply foldl_app. Qed.

Lemma logged_cons r rs w : logged (r :: rs) w = logged rs (log_bedrock r w).
Proof. reflexivity. Qed.

Lemma bedrock_calls_logged rs w : bedrock_calls (logged rs w) = bedrock_calls w ++ rs.
Proof.
  revert w. induction rs as [|r rs IH]; intros w.
  - simpl. by rewrite app_nil_r.
  - rewrite logged_cons, IH. simpl. by rewrite <- app_assoc.
Qed.

Lemma logged_frame rs w :
  pdf_reads (logged rs w) = pdf_reads w ∧ store_calls (logged rs w) = store_calls w ∧
  points (logged rs w) = points w ∧ step_records (logged rs w) = step_records w ∧
  invocations (logged rs w) = invocations w.
Proof.
  revert w. induction rs as [|r rs IH]; intros w; [done|].
  rewrite logged_cons. destruct (IH (log_bedrock r w)) as (-> & -> & -> & -> & ->). done.
Qed.

Lemma embed_loop_cons svc t rest acc w :
  embed_loop svc (t :: rest) acc w =
  match embedding1 svc (bedrock_calls w) t with
  | Returned e => embed_loop svc rest (acc ++ [e]) (log_bedrock (embed_request t) w)
  | Raised e => (Raised e, log_bedrock (embed_request t) w)
  end.
Proof.
  simpl. unfold bind, invoke_model, lift, embedding1.
  destruct (bedrock_client svc (bedrock_calls w) (embed_request t)) as [rb|e]; [|done].
  by destruct (py_get rb "embedding" JNull).
Qed.

Lemma embedding_of_0 svc before t rest :
  embedding_of svc before (t :: rest) 0 t = embedding1 svc before t.
Proof. unfold embedding_of. simpl. by rewrite app_nil_r. Qed.

Lemma embedding_of_S svc before t rest i text :
  embedding_of svc before (t :: rest) (S i) text =
  embedding_of svc (before ++ [embed_request t]) rest i text.
Proof. unfold embedding_of. simpl. by rewrite <- app_assoc. Qed.

(** A batch that returns has made one call per text, in order, and holds the
    embeddings obtained, appended to the accumulator. *)
Lemma embed_loop_returned svc texts : ∀ acc w vecs w',
  embed_loop svc texts acc w = (Returned vecs, w') →
  w' = logged (embed_request <$> texts) w ∧
  ∃ es, vecs = acc ++ es ∧ length es = length texts ∧
        ∀ i text, texts !! i = Some text →
          ∃ e, embedding_of svc (bedrock_calls w) texts i text = Returned e ∧
               es !! i = Some e.
Proof.
  induction texts as [|t rest IH]; intros acc w vecs w' Hrun.
  - simpl in Hrun. injection Hrun as <- <-. split; [done|].
    exists []. rewrite app_nil_r. repeat split; [|done..]. intros i text Hi. done.
  - rewrite embed_loop_cons in Hrun.
    destruct (embedding1 svc (bedrock_calls w) t) as [e|e] eqn:He; [|done].
    apply IH in Hrun as (-> & es & -> & Hlen & Hes). split; [done|].
    exists (e :: es). split; [by rewrite <- app_assoc|]. split; [simpl; lia|].
    intros [|i] text Hi; simpl in Hi.
    + injection Hi as <-. exists e. by rewrite embedding_of_0.
    + rewrite embedding_of_S. by apply Hes.
Qed.

(** A batch whose calls all answer returns. *)
Lemma embed_loop_total svc texts : ∀ acc w,
  (∀ i text, texts !! i = Some text →
     ∃ e, embedding_of svc (bedrock_calls w) texts i text = Returned e) →
  ∃ vecs, embed_loop svc texts acc w = (Returned vecs, logged (embed_request <$> texts) w).
Proof.
  induction texts as [|t rest IH]; intros acc w Hall.
  - by exists acc.
  - rewrite embed_loop_cons.
    destruct (Hall 0%nat t eq_refl) as [e He]. rewrite embedding_of_0 in He. rewrite He.
    apply IH. intros i text Hi.
    destruct (Hall (S i) text Hi) as [e' He']. rewrite embedding_of_S in He'. by exists e'.
Qed.

(** A batch stops at the first call that raises, with the exception of that
    call, after the calls for the texts up to it. *)
Lemma embed_loop_raised svc texts : ∀ acc w i text e,
  texts !! i = Some text →
  (∀ j t, (j < i)%nat → texts !! j = Some t →
     ∃ v, embedding_of svc (bedrock_calls w) texts j t = Returned v) →
  embedding_of svc (bedrock_calls w) texts i text = Raised e →
  embed_loop svc texts acc w = (Raised e, logged (embed_request <$> take (S i) texts) w).
Proof.
  induction texts as [|t rest IH]; intros acc w i text e Hi Hbefore Hfail; [done|].
  rewrite embed_loop_cons. destruct i as [|i]; simpl in Hi.
  - injection Hi as <-. rewrite embedding_of_0 in Hfail. rewrite Hfail. reflexivity.
  - destruct (Hbefore 0%nat t ltac:(lia) eq_refl) as [v Hv].
    rewrite embedding_of_0 in Hv. rewrite Hv.
    rewrite embedding_of_S in Hfail.
    erewrite IH; [done|exact Hi| |exact Hfail].
    intros j t' Hj Ht'. destruct (Hbefore (S j) t' ltac:(lia) Ht') as [v' Hv'].
    rewrite embedding_of_S in Hv'. by exists v'.
Qed.

(** C3: [embed_texts] returns as many vectors as it was given texts, the
    vector at position [i] being the embedding obtained for the text at
    position [i]; and it does return whenever every call of the batch
    answers. *)
Theorem embed_texts_same_length_and_order svc texts w :
  (∀ vecs w',
     embed_texts svc texts w = (Returned vecs, w') →
     length vecs = length texts ∧
     ∀ i text, texts !! i = Some text →
       ∃ e, embedding_of svc (bedrock_calls w) texts i text = Returned e ∧
            vecs !! i = Some e) ∧
  ((∀ i text, texts !! i = Some text →
      ∃ e, embedding_of svc (bedrock_calls w) texts i text = Returned e) →
   ∃ vecs, embed_texts svc texts w = (Returned vecs, logged (embed_request <$> texts) w)).
Proof.
  split.
  - intros vecs w' Hrun. apply embed_loop_returned in Hrun as (_ & es & -> & Hlen & Hes).
    done.
  - apply embed_loop_total.
Qed.

Lemma embed_texts_same_length_and_order_witness :
  let client := services_of (bedrock answered) in
  let vecs := [JArr [JNumber "1"]; JArr [JNumber "2"]] in
  (length vecs = length ["a"; "bb"] ∧
   ∀ i text, ["a"; "bb"] !! i = Some text →
     ∃ e, embedding_of client [] ["a"; "bb"] i text = Returned e ∧ vecs !! i = Some e) ∧
  ∃ vecs', embed_texts client ["a"; "bb"] empty_world
           = (Returned vecs', logged (embed_request <$> ["a"; "bb"]) empty_world).
Proof.
  intros client vecs.
  destruct (embed_texts_same_length_and_order client ["a"; "bb"] empty_world) as [Hret Htot].
  split.
  - apply (Hret vecs (logged (embed_request <$> ["a"; "bb"]) empty_world)).
    vm_compute. reflexivity.
  - apply Htot. intros [|[|i]] text Hi; vm_compute in Hi; try discriminate;
      injection Hi as <-; eexists; vm_compute; reflexivity.
Defined.

(** C4 as stated fails: the exception of a failed batch is the one the
    provider raised, whichever text it was raised for, so nothing read from
    it gives the position of the failing text. *)
Lemma embed_texts_error_without_index :
  let client := services_of (bedrock answered) in
  (embed_texts client ["a"; "boom"] empty_world).1
    = Raised (PyExc "ClientError" "ThrottlingException") ∧
  (embed_texts client ["boom"] empty_world).1
    = Raised (PyExc "ClientError" "ThrottlingException") ∧
  ¬ ∃ index_of, error_carries_index index_of.
Proof.
  intros client. split; [by vm_compute|]. split; [by vm_compute|].
  intros [index_of Hclaim].
  destruct (Hclaim client ["boom"] empty_world 0%nat "boom"
              (PyExc "ClientError" "ThrottlingException")) as (e & w' & Hrun & Hcls & _).
  - reflexivity.
  - intros j t Hj. lia.
  - by vm_compute.
  - vm_compute in Hrun. injection Hrun as <- _. vm_compute in Hcls. discriminate.
Qed.

(** C4, amended: when the call for a text is the first of the batch to
    raise, the whole [embed_texts] call raises that same exception, after
    the calls for the texts up to it, and returns no list. *)
Theorem embed_texts_propagates_first_failure svc texts w i text e :
  texts !! i = Some text →
  (∀ j t, (j < i)%nat → texts !! j = Some t →
     ∃ v, embedding_of svc (bedrock_calls w) texts j t = Returned v) →
  embedding_of svc (bedrock_calls w) texts i text = Raised e →
  embed_texts svc texts w = (Raised e, logged (embed_request <$> take (S i) texts) w).
Proof. apply embed_loop_raised. Qed.

Lemma embed_texts_propagates_first_failure_witness :
  embed_texts (services_of (bedrock answered)) ["a"; "boom"; "c"] empty_world
  = (Raised (PyExc "ClientError" "ThrottlingException"),
     logged (embed_request <$> take 2 ["a"; "boom"; "c"]) empty_world).
Proof.
  apply (embed_texts_propagates_first_failure _ _ _ 1%nat "boom").
  - reflexivity.
  - intros [|j] t Hj Ht; [|lia]. vm_compute in Ht. injection Ht as <-.
    eexists. vm_compute. reflexivity.
  - vm_compute. reflexivity.
Defined.

(** ** The vector store and [_upsert] *)

Lemma dom_upsert_points recs : ∀ pts : gmap string (json * payload),
  dom (upsert_points recs pts) = list_to_set recs.*1 ∪ dom pts.
Proof.
  unfold upsert_points. induction recs as [|r recs IH]; intros pts; simpl.
  - set_solver.
  - rewrite IH, dom_insert_L. set_solver.
Qed.

Lemma length_ids_of cs : length (ids_of cs) = length (chunks cs).
Proof. unfold ids_of. by rewrite length_fmap, length_seq. Qed.

Lemma length_payloads_of cs : length (payloads_of cs) = length (chunks cs).
Proof. unfold payloads_of. by rewrite length_fmap, length_seq. Qed.

Lemma ids_of_lookup cs i text :
  chunks cs !! i = Some text → ids_of cs !! i = Some (chunk_id (source_id cs) i).
Proof.
  intros Hi. unfold ids_of. rewrite list_lookup_fmap.
  apply lookup_lt_Some in Hi. by rewrite lookup_seq_lt.
Qed.

Lemma payloads_of_lookup cs i text :
  chunks cs !! i = Some text →
  payloads_of cs !! i = Some {| source := source_id cs; text := text |}.
Proof.
  intros Hi. unfold payloads_of. rewrite list_lookup_fmap.
  rewrite lookup_seq_lt by (by apply lookup_lt_Some in Hi). simpl.
  by rewrite (list_lookup_total_correct _ _ _ Hi).
Qed.

(** The ids written by an upsert of as many vectors as there are chunks are
    the ids of the chunks. *)
Lemma upsert_keys cs (vecs : list json) :
  length vecs = length (chunks cs) →
  (zip (ids_of cs) (zip vecs (payloads_of cs))).*1 = ids_of cs.
Proof.
  intros Hlen. apply fst_zip.
  rewrite length_zip, length_ids_of, length_payloads_of, Hlen. lia.
Qed.

(** [_upsert], step by step. *)
Lemma _upsert_unfold svc cs w :
  _upsert svc cs w =
  match embed_texts svc (chunks cs) w with
  | (Returned vecs, w1) =>
      let c := Upsert (ids_of cs) vecs (payloads_of cs) in
      match qdrant_fault svc (store_calls w1) c with
      | Some e => (Raised e, log_store c w1)
      | None =>
          (Returned {| ingested := length (chunks cs) |},
           set_points (upsert_points (zip (ids_of cs) (zip vecs (payloads_of cs))) (points w1))
                      (log_store c w1))
      end
  | (Raised e, w1) => (Raised e, w1)
  end.
Proof.
  unfold _upsert, bind. destruct (embed_texts svc (chunks cs) w) as [[vecs|e] w1]; [|done].
  unfold QdrantStorage_upsert, store_request, ids_of, payloads_of. simpl.
  by destruct (qdrant_fault svc (store_calls w1) _).
Qed.

(** What a returning [_upsert] has done. *)
Lemma _upsert_returned svc cs w r w' :
  _upsert svc cs w = (Returned r, w') →
  ∃ vecs,
    let w1 := logged (embed_request <$> chunks cs) w in
    embed_texts svc (chunks cs) w = (Returned vecs, w1) ∧
    length vecs = length (chunks cs) ∧
    r = {| ingested := length (chunks cs) |} ∧
    w' = set_points
           (upsert_points (zip (ids_of cs) (zip vecs (payloads_of cs))) (points w))
           (log_store (Upsert (ids_of cs) vecs (payloads_of cs)) w1).
Proof.
  rewrite _upsert_unfold. intros Hrun.
  destruct (embed_texts svc (chunks cs) w) as [[vecs|e] w1] eqn:Hemb; [|done].
  simpl in Hrun. destruct (qdrant_fault svc _ _); [done|]. injection Hrun as <- <-.
  pose proof Hemb as Hemb'.
  apply embed_loop_returned in Hemb' as (-> & es & -> & Hlen & _).
  exists es. simpl. destruct (logged_frame (embed_request <$> chunks cs) w) as (_ & _ & -> & _).
  done.
Qed.

(** C1: the ids [_upsert] hands to the store are [chunk_id source_id i] for
    [i] from 0 to the number of chunks, whatever the chunks contain; so an
    ingest repeated for the same source and as many chunks writes the same
    ids, and neither the set of stored ids nor the number of stored records
    changes. *)
Theorem reingest_same_ids svc cs cs' w r1 w1 r2 w2 :
  source_id cs' = source_id cs →
  length (chunks cs') = length (chunks cs) →
  _upsert svc cs w = (Returned r1, w1) →
  _upsert svc cs' w1 = (Returned r2, w2) →
  let ids := (λ i, uuid5 NAMESPACE_URL (source_id cs +:+ ":" +:+ str_of_nat i))
               <$> seq 0 (length (chunks cs)) in
  (∃ vecs1 vecs2,
     store_calls w1 = store_calls w ++ [Upsert ids vecs1 (payloads_of cs)] ∧
     store_calls w2 = store_calls w1 ++ [Upsert ids vecs2 (payloads_of cs')]) ∧
  dom (points w1) = list_to_set ids ∪ dom (points w) ∧
  dom (points w2) = dom (points w1) ∧
  size (points w2) = size (points w1).
Proof.
  intros Hsrc Hlen Hrun1 Hrun2 ids.
  assert (ids = ids_of cs) as Hids by reflexivity. clearbody ids. subst ids.
  assert (ids_of cs' = ids_of cs) as Hids' by (unfold ids_of; by rewrite Hsrc, Hlen).
  apply _upsert_returned in Hrun1 as (vecs1 & _ & Hl1 & _ & ->).
  apply _upsert_returned in Hrun2 as (vecs2 & _ & Hl2 & _ & ->).
  pose proof (upsert_keys cs vecs1 Hl1) as Hk1.
  pose proof (upsert_keys cs' vecs2 Hl2) as Hk2.
  destruct (logged_frame (embed_request <$> chunks cs) w) as (_ & Hsc1 & _).
  simpl. rewrite !dom_upsert_points, Hk1, Hk2, Hids'. rewrite Hids' in Hk2.
  split; [|split; [|split]].
  - exists vecs1, vecs2.
    destruct (logged_frame (embed_request <$> chunks cs')
                (set_points
                   (upsert_points (zip (ids_of cs) (zip vecs1 (payloads_of cs))) (points w))
                   (log_store (Upsert (ids_of cs) vecs1 (payloads_of cs))
                      (logged (embed_request <$> chunks cs) w)))) as (_ & -> & _).
    simpl. by rewrite Hsc1.
  - done.
  - set_solver.
  - rewrite <- !size_dom, !dom_upsert_points, Hk1, Hk2. f_equal. set_solver.
Qed.

Lemma reingest_same_ids_witness :
  let client := services_of (bedrock answered) in
  let cs := {| chunks := ["One paragraph."; "Second page."]; source_id := "doc1" |} in
  let cs' := {| chunks := ["A paragraph, edited."; "Page two."]; source_id := "doc1" |} in
  let w1 := (_upsert client cs empty_world).2 in
  let w2 := (_upsert client cs' w1).2 in
  let ids := ["ac3bc37d-f169-5f73-842f-b277e90123ad";
              "2102f41f-82a4-5909-a638-d8a95138cf65"] in
  (∃ vecs1 vecs2,
     store_calls w1 = store_calls empty_world ++ [Upsert ids vecs1 (payloads_of cs)] ∧
     store_calls w2 = store_calls w1 ++ [Upsert ids vecs2 (payloads_of cs')]) ∧
  dom (points w1) = list_to_set ids ∪ dom (points empty_world) ∧
  dom (points w2) = dom (points w1) ∧
  size (points w2) = size (points w1).
Proof.
  intros client cs cs' w1 w2 ids.
  assert (ids = (λ i, uuid5 NAMESPACE_URL (source_id cs +:+ ":" +:+ str_of_nat i))
                  <$> seq 0 (length (chunks cs))) as -> by (vm_compute; reflexivity).
  apply (reingest_same_ids client cs cs' empty_world {| ingested := 2 |} w1
           {| ingested := 2 |} w2).
  - reflexivity.
  - reflexivity.
  - vm_compute. reflexivity.
  - vm_compute. reflexivity.
Defined.

(** C9: the upsert of an ingest run receives one id, one vector and one
    payload per chunk, in chunk order: at every index [i] the id derived
    from [i], the embedding obtained for the text of chunk [i], and the
    payload with the source id and that text. *)
Theorem ingest_preserves_chunk_order svc cs w r w' :
  _upsert svc cs w = (Returned r, w') →
  ∃ ids vecs payloads,
    store_calls w' = store_calls w ++ [Upsert ids vecs payloads] ∧
    length ids = length (chunks cs) ∧
    length vecs = length (chunks cs) ∧
    length payloads = length (chunks cs) ∧
    ∀ i text, chunks cs !! i = Some text →
      ids !! i = Some (uuid5 NAMESPACE_URL (source_id cs +:+ ":" +:+ str_of_nat i)) ∧
      payloads !! i = Some {| source := source_id cs; text := text |} ∧
      ∃ e, embedding_of svc (bedrock_calls w) (chunks cs) i text = Returned e ∧
           vecs !! i = Some e.
Proof.
  intros Hrun. apply _upsert_returned in Hrun as (vecs & Hemb & Hlen & _ & ->).
  exists (ids_of cs), vecs, (payloads_of cs).
  destruct (logged_frame (embed_request <$> chunks cs) w) as (_ & Hsc & _).
  split; [simpl; by rewrite Hsc|].
  split; [apply length_ids_of|]. split; [done|]. split; [apply length_payloads_of|].
  intros i text Hi.
  split; [by apply (ids_of_lookup cs i text)|]. split; [by apply payloads_of_lookup|].
  apply embed_loop_returned in Hemb as (_ & es & Hes & _ & Hall).
  simpl in Hes. subst es. by apply Hall.
Qed.

Lemma ingest_preserves_chunk_order_witness :
  let client := services_of (bedrock answered) in
  let cs := {| chunks := ["One paragraph."; "Second page."]; source_id := "doc1" |} in
  ∃ ids vecs payloads,
    store_calls (_upsert client cs empty_world).2
      = store_calls empty_world ++ [Upsert ids vecs payloads] ∧
    length ids = length (chunks cs) ∧
    length vecs = length (chunks cs) ∧
    length payloads = length (chunks cs) ∧
    ∀ i text, chunks cs !! i = Some text →
      ids !! i = Some (uuid5 NAMESPACE_URL (source_id cs +:+ ":" +:+ str_of_nat i)) ∧
      payloads !! i = Some {| source := source_id cs; text := text |} ∧
      ∃ e, embedding_of client (bedrock_calls empty_world) (chunks cs) i text = Returned e ∧
           vecs !! i = Some e.
Proof.
  intros client cs.
  apply (ingest_preserves_chunk_order client cs empty_world {| ingested := 2 |}).
  vm_compute. reflexivity.
Defined.

(** ** What a computation leaves alone *)

(** [m] never changes the component [proj] of the world. *)
Definition preserves {A B} (proj : world → B) (m : M A) : Prop :=
  ∀ w, proj (m w).2 = proj w.

Lemma preserves_ret {A B} (proj : world → B) (a : A) : preserves proj (ret a).
Proof. by intros w. Qed.

Lemma preserves_lift {A B} (proj : world → B) (o : outcome A) : preserves proj (lift o).
Proof. by intros w. Qed.

Lemma preserves_bind {A B C} (proj : world → C) (m : M A) (k : A → M B) :
  preserves proj m → (∀ a, preserves proj (k a)) → preserves proj (bind m k).
Proof.
  intros Hm Hk w. unfold bind. specialize (Hm w).
  destruct (m w) as [[a|e] w1]; simpl in *; [|done]. by rewrite Hk.
Qed.

Lemma invoke_model_frame svc r :
  preserves pdf_reads (invoke_model svc r) ∧ preserves store_calls (invoke_model svc r) ∧
  preserves points (invoke_model svc r) ∧ preserves step_records (invoke_model svc r) ∧
  preserves invocations (invoke_model svc r).
Proof. by repeat split. Qed.

Lemma store_request_frame {A} svc c (k : world → A * world) :
  (∀ w, pdf_reads (k w).2 = pdf_reads w) →
  (∀ w, step_records (k w).2 = step_records w) →
  (∀ w, invocations (k w).2 = invocations w) →
  (∀ w, bedrock_calls (k w).2 = bedrock_calls w) →
  preserves pdf_reads (store_request svc c k) ∧
  preserves step_records (store_request svc c k) ∧
  preserves invocations (store_request svc c k) ∧
  preserves bedrock_calls (store_request svc c k).
Proof.
  intros H1 H2 H3 H4.
  repeat split; intros w; unfold store_request;
    destruct (qdrant_fault svc (store_calls w) c); try done;
    [specialize (H1 (log_store c w))|specialize (H2 (log_store c w))
    |specialize (H3 (log_store c w))|specialize (H4 (log_store c w))];
    by destruct (k (log_store c w)).
Qed.

Lemma embed_loop_frame svc texts : ∀ acc,
  preserves pdf_reads (embed_loop svc texts acc) ∧
  preserves store_calls (embed_loop svc texts acc) ∧
  preserves points (embed_loop svc texts acc) ∧
  preserves step_records (embed_loop svc texts acc) ∧
  preserves invocations (embed_loop svc texts acc).
Proof.
  induction texts as [|t rest IH]; intros acc; [by repeat split|].
  repeat split; intros w; rewrite embed_loop_cons;
    destruct (embedding1 svc (bedrock_calls w) t) as [e|e]; try done;
    destruct (IH (acc ++ [e])) as (H1 & H2 & H3 & H4 & H5);
    [rewrite H1|rewrite H2|rewrite H3|rewrite H4|rewrite H5]; done.
Qed.

Lemma _upsert_frame svc cs :
  preserves pdf_reads (_upsert svc cs) ∧ preserves step_records (_upsert svc cs) ∧
  preserves invocations (_upsert svc cs).
Proof.
  destruct (embed_loop_frame svc (chunks cs) []) as (H1 & _ & _ & H4 & H5).
  repeat split; intros w; rewrite _upsert_unfold;
    [specialize (H1 w)|specialize (H4 w)|specialize (H5 w)];
    unfold embed_texts; destruct (embed_loop svc (chunks cs) [] w) as [[vecs|e] w1];
    simpl in *; try done; by destruct (qdrant_fault svc _ _).
Qed.

Lemma _search_frame svc q k :
  preserves pdf_reads (_search svc q k) ∧ preserves step_records (_search svc q k) ∧
  preserves invocations (_search svc q k).
Proof.
  destruct (embed_loop_frame svc [q] []) as (H1 & _ & _ & H4 & H5).
  unfold _search, embed_texts.
  repeat split; (apply preserves_bind; [done|intros vecs]);
    (apply preserves_bind; [apply preserves_lift|intros v]);
    (apply preserves_bind; [|intros f; apply preserves_ret]);
    unfold QdrantStorage_search; by apply store_request_frame.
Qed.

Lemma _load_frame svc ctx :
  preserves bedrock_calls (_load svc ctx) ∧ preserves store_calls (_load svc ctx) ∧
  preserves points (_load svc ctx) ∧ preserves step_records (_load svc ctx) ∧
  preserves invocations (_load svc ctx).
Proof.
  unfold _load, load_and_chunk_pdf.
  repeat split; intros w; unfold bind, load_data, ret; simpl;
    by destruct (PDFReader svc (pdf_reads w) _).
Qed.

(** ** The step executor *)

Section step_run.
Context {A : Type} `{StepOutput A}.
Variables (run_id step_name : string) (fn : M A).

Lemma step_run_cached w v :
  cached (step_records w !! (run_id, step_name)) = Some v →
  step_run run_id step_name fn w =
    (match of_value v with
     | Some a => Returned a
     | None => Raised (ValidationError step_name)
     end, w).
Proof. intros Hc. unfold step_run. by rewrite Hc. Qed.

Lemma step_run_invoked w :
  cached (step_records w !! (run_id, step_name)) = None →
  step_run run_id step_name fn w =
    let key := (run_id, step_name) in
    let n := attempts (step_records w !! key) in
    match fn (log_invocation key (set_step key (StepRecord pending None n) w)) with
    | (Returned a, w') =>
        (Returned a, set_step key (StepRecord succeeded (Some (to_value a)) n) w')
    | (Raised e, w') => (Raised e, set_step key (StepRecord failed None (S n)) w')
    end.
Proof. intros Hc. unfold step_run. by rewrite Hc. Qed.

(** The executor changes a component of the world only through [fn]. *)
Lemma step_run_preserves {B} (proj : world → B) :
  (∀ key r w, proj (set_step key r w) = proj w) →
  (∀ key w, proj (log_invocation key w) = proj w) →
  preserves proj fn → preserves proj (step_run run_id step_name fn).
Proof.
  intros Hset Hlog Hfn w. unfold step_run.
  destruct (cached _); [done|].
  specialize (Hfn (log_invocation (run_id, step_name)
    (set_step (run_id, step_name)
       (StepRecord pending None (attempts (step_records w !! (run_id, step_name)))) w))).
  destruct (fn _) as [[a|e] w']; simpl in *; by rewrite Hset, Hfn, Hlog, Hset.
Qed.

(** The executor logs an invocation exactly when no result is cached. *)
Lemma step_run_invocations w :
  preserves invocations fn →
  invocations (step_run run_id step_name fn w).2 =
    invocations w ++
      match cached (step_records w !! (run_id, step_name)) with
      | Some _ => []
      | None => [(run_id, step_name)]
      end.
Proof.
  intros Hfn. unfold step_run. destruct (cached _); [by rewrite app_nil_r|].
  specialize (Hfn (log_invocation (run_id, step_name)
    (set_step (run_id, step_name)
       (StepRecord pending None (attempts (step_records w !! (run_id, step_name)))) w))).
  by destruct (fn _) as [[a|e] w'].
Qed.

(** The records of the other steps are left as they are. *)
Lemma step_run_other_records w key :
  preserves step_records fn → key ≠ (run_id, step_name) →
  step_records (step_run run_id step_name fn w).2 !! key = step_records w !! key.
Proof.
  intros Hfn Hne. unfold step_run. destruct (cached _); [done|].
  specialize (Hfn (log_invocation (run_id, step_name)
    (set_step (run_id, step_name)
       (StepRecord pending None (attempts (step_records w !! (run_id, step_name)))) w))).
  destruct (fn _) as [[a|e] w']; simpl in *; rewrite lookup_insert_ne, Hfn by done;
    by rewrite lookup_insert_ne.
Qed.

(** A step that returns leaves a succeeded record holding its result. *)
Lemma step_run_returned w a w' :
  preserves step_records fn →
  step_run run_id step_name fn w = (Returned a, w') →
  ∃ v, cached (step_records w' !! (run_id, step_name)) = Some v ∧ of_value v = Some a.
Proof.
  intros Hfn. unfold step_run.
  destruct (cached (step_records w !! (run_id, step_name))) as [v|] eqn:Hc.
  - destruct (of_value v) as [a'|] eqn:Hv; [|done]. intros [= <- <-]. by exists v.
  - destruct (fn _) as [[a'|e] w1]; [|done]. intros [= <- <-].
    exists (to_value a'). simpl. rewrite lookup_insert_eq. simpl.
    split; [done|apply of_to_value].
Qed.
End step_run.

Lemma load_key_ne_upsert_key (rid : string) :
  (rid, "load-and-chunk") ≠ (rid, "embed-and-upsert").
Proof. intros [=]. Qed.

Lemma search_key_ne_llm_key (rid : string) :
  (rid, "embed-and-search") ≠ (rid, "llm-answer-bedrock").
Proof. intros [=]. Qed.

(** A retry of the ingest run in a world where the load step has a cached
    result does not read the document nor invoke the load step again. *)
Lemma ingest_retry_skips_load svc ctx w v cs :
  cached (step_records w !! (run_id ctx, "load-and-chunk")) = Some v →
  of_value v = Some cs →
  step_run (run_id ctx) "load-and-chunk" (_load svc ctx) w = (Returned cs, w) ∧
  pdf_reads (rag_ingest_pdf svc ctx w).2 = pdf_reads w ∧
  ∃ l, invocations (rag_ingest_pdf svc ctx w).2 = invocations w ++ l ∧
       (run_id ctx, "load-and-chunk") ∉ l.
Proof.
  intros Hc Hv.
  assert (step_run (run_id ctx) "load-and-chunk" (_load svc ctx) w = (Returned cs, w)) as H1.
  { rewrite (step_run_cached _ _ _ _ v Hc). by rewrite Hv. }
  split; [done|].
  destruct (_upsert_frame svc cs) as (Hp & _ & Hi).
  assert ((rag_ingest_pdf svc ctx w).2
          = (step_run (run_id ctx) "embed-and-upsert" (_upsert svc cs) w).2) as ->.
  { unfold rag_ingest_pdf, bind. rewrite H1.
    by destruct (step_run (run_id ctx) "embed-and-upsert" (_upsert svc cs) w) as [[r|e] w']. }
  split.
  - by apply step_run_preserves.
  - eexists. split; [by apply step_run_invocations|].
    destruct (cached (step_records w !! (run_id ctx, "embed-and-upsert")));
      [apply not_elem_of_nil|].
    rewrite list_elem_of_singleton. apply load_key_ne_upsert_key.
Qed.

(** The same for the query run and its search step. *)
Lemma query_retry_skips_search svc ctx w v found :
  cached (step_records w !! (run_id ctx, "embed-and-search")) = Some v →
  of_value v = Some found →
  let q := question (event_data ctx) in
  let k := default 5 (ev_top_k (event_data ctx)) in
  step_run (run_id ctx) "embed-and-search" (_search svc q k) w = (Returned found, w) ∧
  store_calls (rag_query_pdf_ai svc ctx w).2 = store_calls w ∧
  ∃ l, invocations (rag_query_pdf_ai svc ctx w).2 = invocations w ++ l ∧
       (run_id ctx, "embed-and-search") ∉ l.
Proof.
  intros Hc Hv q k.
  assert (step_run (run_id ctx) "embed-and-search" (_search svc q k) w = (Returned found, w))
    as H1.
  { rewrite (step_run_cached _ _ _ _ v Hc). by rewrite Hv. }
  split; [done|].
  set (fn := _invoke_llm svc (context_block_of (contexts found)) q).
  destruct (invoke_model_frame svc (llm_request (context_block_of (contexts found)) q))
    as (_ & Hs & _ & _ & Hi).
  assert ((rag_query_pdf_ai svc ctx w).2
          = (step_run (run_id ctx) "llm-answer-bedrock" fn w).2) as ->.
  { unfold rag_query_pdf_ai, bind. fold q k. rewrite H1. fold fn.
    destruct (step_run (run_id ctx) "llm-answer-bedrock" fn w) as [[r|e] w']; [|done].
    unfold lift. by destruct (answer_of r). }
  split.
  - by apply step_run_preserves.
  - eexists. split; [by apply step_run_invocations|].
    destruct (cached (step_records w !! (run_id ctx, "llm-answer-bedrock")));
      [apply not_elem_of_nil|].
    rewrite list_elem_of_singleton. apply search_key_ne_llm_key.
Qed.

(** C2: a step whose record is succeeded answers from the cached result
    without invoking its function, whatever that function is; and when a run
    fails in its second step after its first step succeeded, running the
    same [run_id] again returns the first step's cached result and does not
    invoke the first step again. *)
Theorem succeeded_step_not_reinvoked
    {A} `{StepOutput A} (rid name : string) (fn : M A) (w : world) (a : A) (n : nat)
    svc (ictx : Context ingest_event) (qctx : Context query_event)
    (w0 wa w1 : world) (cs : RAGChunkAndSrc) (found : RAGSearchResult) (e : exn) :
  (step_records w !! (rid, name) = Some (StepRecord succeeded (Some (to_value a)) n) →
   step_run rid name fn w = (Returned a, w)) ∧
  (step_run (run_id ictx) "load-and-chunk" (_load svc ictx) w0 = (Returned cs, wa) →
   step_run (run_id ictx) "embed-and-upsert" (_upsert svc cs) wa = (Raised e, w1) →
   rag_ingest_pdf svc ictx w0 = (Raised e, w1) ∧
   step_run (run_id ictx) "load-and-chunk" (_load svc ictx) w1 = (Returned cs, w1) ∧
   pdf_reads (rag_ingest_pdf svc ictx w1).2 = pdf_reads w1 ∧
   ∃ l, invocations (rag_ingest_pdf svc ictx w1).2 = invocations w1 ++ l ∧
        (run_id ictx, "load-and-chunk") ∉ l) ∧
  (let q := question (event_data qctx) in
   let k := default 5 (ev_top_k (event_data qctx)) in
   step_run (run_id qctx) "embed-and-search" (_search svc q k) w0 = (Returned found, wa) →
   step_run (run_id qctx) "llm-answer-bedrock"
     (_invoke_llm svc (context_block_of (contexts found)) q) wa = (Raised e, w1) →
   rag_query_pdf_ai svc qctx w0 = (Raised e, w1) ∧
   step_run (run_id qctx) "embed-and-search" (_search svc q k) w1 = (Returned found, w1) ∧
   store_calls (rag_query_pdf_ai svc qctx w1).2 = store_calls w1 ∧
   ∃ l, invocations (rag_query_pdf_ai svc qctx w1).2 = invocations w1 ++ l ∧
        (run_id qctx, "embed-and-search") ∉ l).
Proof.
  split; [|split].
  - intros Hrec. rewrite (step_run_cached _ _ _ _ (to_value a)) by (by rewrite Hrec).
    by rewrite of_to_value.
  - intros H1 H2.
    split; [unfold rag_ingest_pdf, bind; by rewrite H1, H2|].
    destruct (_load_frame svc ictx) as (_ & _ & _ & Hl & _).
    destruct (_upsert_frame svc cs) as (_ & Hu & _).
    destruct (step_run_returned _ _ _ _ _ _ Hl H1) as (v & Hc & Hv).
    apply (ingest_retry_skips_load svc ictx w1 v cs); [|done].
    replace w1 with (step_run (run_id ictx) "embed-and-upsert" (_upsert svc cs) wa).2
      by (by rewrite H2).
    rewrite step_run_other_records; [done|done|apply load_key_ne_upsert_key].
  - intros q k H1 H2.
    split; [unfold rag_query_pdf_ai, bind; fold q k; by rewrite H1, H2|].
    destruct (_search_frame svc q k) as (_ & Hs & _).
    destruct (invoke_model_frame svc (llm_request (context_block_of (contexts found)) q))
      as (_ & _ & _ & Hu & _).
    destruct (step_run_returned _ _ _ _ _ _ Hs H1) as (v & Hc & Hv).
    apply (query_retry_skips_search svc qctx w1 v found); [|done].
    replace w1 with (step_run (run_id qctx) "llm-answer-bedrock"
                       (_invoke_llm svc (context_block_of (contexts found)) q) wa).2
      by (by rewrite H2).
    rewrite step_run_other_records; [done|done|apply search_key_ne_llm_key].
Qed.

Lemma succeeded_step_not_reinvoked_witness :
  let done := (rag_ingest_pdf (services_of (bedrock answered)) ingest_ctx empty_world).2 in
  let down := services_of (flaky 1 answered) in
  let cs := {| chunks := ["One paragraph."; "Second page."]; source_id := "doc1" |} in
  let i1 := (rag_ingest_pdf down ingest_ctx empty_world).2 in
  let mute := services_of (bedrock timed_out) in
  let q1 := (rag_query_pdf_ai mute query_ctx empty_world).2 in
  step_run "run-1" "embed-and-upsert" (raise (PyExc "AssertionError" "invoked")) done
    = (Returned {| ingested := 2 |}, done) ∧
  (rag_ingest_pdf down ingest_ctx empty_world = (Raised (PyExc "ReadTimeoutError" "timed out"), i1) ∧
   step_run "run-1" "load-and-chunk" (_load down ingest_ctx) i1 = (Returned cs, i1) ∧
   pdf_reads (rag_ingest_pdf down ingest_ctx i1).2 = pdf_reads i1 ∧
   ∃ l, invocations (rag_ingest_pdf down ingest_ctx i1).2 = invocations i1 ++ l ∧
        ("run-1", "load-and-chunk") ∉ l) ∧
  (rag_query_pdf_ai mute query_ctx empty_world = (Raised (PyExc "ReadTimeoutError" "timed out"), q1) ∧
   step_run "run-2" "embed-and-search" (_search mute "What is X?" 3) q1
     = (Returned {| contexts := []; sources := [] |}, q1) ∧
   store_calls (rag_query_pdf_ai mute query_ctx q1).2 = store_calls q1 ∧
   ∃ l, invocations (rag_query_pdf_ai mute query_ctx q1).2 = invocations q1 ++ l ∧
        ("run-2", "embed-and-search") ∉ l).
Proof.
  intros done down cs i1 mute q1.
  pose (ia := (step_run "run-1" "load-and-chunk" (_load down ingest_ctx) empty_world).2).
  pose (qa := (step_run "run-2" "embed-and-search" (_search mute "What is X?" 3)
                 empty_world).2).
  destruct (succeeded_step_not_reinvoked "run-1" "embed-and-upsert"
              (raise (PyExc "AssertionError" "invoked")) done {| ingested := 2 |} 0
              down ingest_ctx query_ctx empty_world ia i1 cs
              {| contexts := []; sources := [] |} (PyExc "ReadTimeoutError" "timed out"))
    as (Hcached & Hingest & _).
  destruct (succeeded_step_not_reinvoked "run-1" "embed-and-upsert"
              (raise (PyExc "AssertionError" "invoked")) done {| ingested := 2 |} 0
              mute ingest_ctx query_ctx empty_world qa q1 cs
              {| contexts := []; sources := [] |} (PyExc "ReadTimeoutError" "timed out"))
    as (_ & _ & Hquery).
  split; [|split].
  - apply Hcached. vm_compute. reflexivity.
  - apply Hingest; vm_compute; reflexivity.
  - apply Hquery; vm_compute; reflexivity.
Defined.

(** ** Empty batches *)

Lemma _upsert_no_chunks svc cs w :
  chunks cs = [] →
  qdrant_fault svc (store_calls w) (Upsert [] [] []) = None →
  ∃ w', _upsert svc cs w = (Returned {| ingested := 0 |}, w') ∧
        bedrock_calls w' = bedrock_calls w ∧
        points w' = points w ∧
        store_calls w' = store_calls w ++ [Upsert [] [] []].
Proof.
  intros Hcs Hok. rewrite _upsert_unfold. unfold ids_of, payloads_of. rewrite Hcs. simpl.
  rewrite Hok. eexists. split; [reflexivity|]. done.
Qed.

(** C10: on the empty list [embed_texts] returns the empty list and leaves
    the world as it is (no call to the model); so an [_upsert] of zero chunks
    sends no request to Bedrock, hands the store empty lists, leaves the
    stored points unchanged and returns [ingested = 0], and so does an ingest
    run whose load step yields zero chunks. *)
Theorem empty_batch_ingests_nothing svc (ctx : Context ingest_event) cs w w1 :
  embed_texts svc [] w = (Returned [], w) ∧
  (chunks cs = [] →
   qdrant_fault svc (store_calls w) (Upsert [] [] []) = None →
   ∃ w', _upsert svc cs w = (Returned {| ingested := 0 |}, w') ∧
         bedrock_calls w' = bedrock_calls w ∧
         points w' = points w ∧
         store_calls w' = store_calls w ++ [Upsert [] [] []]) ∧
  (step_run (run_id ctx) "load-and-chunk" (_load svc ctx) w = (Returned cs, w1) →
   chunks cs = [] →
   cached (step_records w1 !! (run_id ctx, "embed-and-upsert")) = None →
   qdrant_fault svc (store_calls w1) (Upsert [] [] []) = None →
   ∃ w2, rag_ingest_pdf svc ctx w = (Returned (JObj [("ingested", JNumber "0")]), w2) ∧
         bedrock_calls w2 = bedrock_calls w1 ∧
         points w2 = points w1 ∧
         store_calls w2 = store_calls w1 ++ [Upsert [] [] []]).
Proof.
  split; [reflexivity|]. split; [apply _upsert_no_chunks|].
  intros Hload Hcs Hfresh Hok.
  unfold rag_ingest_pdf, bind. rewrite Hload, (step_run_invoked _ _ _ _ Hfresh). simpl.
  destruct (_upsert_no_chunks svc cs
              (log_invocation (run_id ctx, "embed-and-upsert")
                 (set_step (run_id ctx, "embed-and-upsert")
                    (StepRecord pending None
                       (attempts (step_records w1 !! (run_id ctx, "embed-and-upsert")))) w1))
              Hcs Hok) as (w' & -> & Hb & Hp & Hs).
  eexists. split; [reflexivity|]. simpl. by rewrite Hb, Hp, Hs.
Qed.

Lemma empty_batch_ingests_nothing_witness :
  let client := services_of (bedrock answered) in
  let ctx := {| run_id := "run-3";
                event_data := {| pdf_path := "blank.pdf"; ev_source_id := None |} |} in
  let cs := {| chunks := []; source_id := "blank.pdf" |} in
  let w1 := (step_run "run-3" "load-and-chunk" (_load client ctx) empty_world).2 in
  (∃ w', _upsert client cs empty_world = (Returned {| ingested := 0 |}, w') ∧
         bedrock_calls w' = bedrock_calls empty_world ∧
         points w' = points empty_world ∧
         store_calls w' = store_calls empty_world ++ [Upsert [] [] []]) ∧
  ∃ w2, rag_ingest_pdf client ctx empty_world
        = (Returned (JObj [("ingested", JNumber "0")]), w2) ∧
        bedrock_calls w2 = bedrock_calls w1 ∧
        points w2 = points w1 ∧
        store_calls w2 = store_calls w1 ++ [Upsert [] [] []].
Proof.
  intros client ctx cs w1.
  destruct (empty_batch_ingests_nothing client ctx cs empty_world w1) as (_ & Hupsert & Hrun).
  split.
  - apply Hupsert; reflexivity.
  - apply Hrun; vm_compute; reflexivity.
Defined.

(** ** The answer of the query pipeline *)

Lemma strip_empty : strip "" = "".
Proof. reflexivity. Qed.

(** The query pipeline after its two steps. *)
Lemma rag_query_pdf_ai_steps svc ctx w found w1 out w2 :
  let q := question (event_data ctx) in
  let k := default 5 (ev_top_k (event_data ctx)) in
  step_run (run_id ctx) "embed-and-search" (_search svc q k) w = (Returned found, w1) →
  step_run (run_id ctx) "llm-answer-bedrock"
    (_invoke_llm svc (context_block_of (contexts found)) q) w1 = (out, w2) →
  rag_query_pdf_ai svc ctx w =
    (match out with
     | Returned res =>
         match answer_of res with
         | Returned answer => Returned (query_result answer found)
         | Raised e => Raised e
         end
     | Raised e => Raised e
     end, w2).
Proof.
  intros q k H1 H2. unfold rag_query_pdf_ai, bind. fold q k. rewrite H1, H2.
  destruct out as [res|e]; [|done]. unfold lift. by destruct (answer_of res).
Qed.

(** C7 as stated fails: a generation response without any answer field is
    returned as a successful result, with the empty answer. *)
Lemma empty_answer_returned_as_success :
  (rag_query_pdf_ai (services_of (bedrock (Returned (JObj [])))) query_ctx empty_world).1
  = Returned (JObj [("answer", JStr "");
                    ("sources", JArr []);
                    ("num_contexts", JNumber "0")]).
Proof. vm_compute. reflexivity. Qed.

(** C7, amended: the answer is read from the generation response as
    [res.get("content", [{}])[0].get("text", "").strip()] with no check that
    it is non-empty: a response dict without ["content"], or whose first
    content item is a dict without ["text"], gives the empty answer, a text
    gives that text stripped, and whenever the expression evaluates the
    pipeline returns its value as the answer of a successful result. *)
Theorem answer_read_without_validation
    svc ctx w found w1 res w2 fields items rest answer s :
  (dict_lookup "content" fields = None → answer_of (JObj fields) = Returned "") ∧
  (dict_lookup "content" fields = Some (JArr (JObj items :: rest)) →
   dict_lookup "text" items = None → answer_of (JObj fields) = Returned "") ∧
  (dict_lookup "content" fields = Some (JArr (JObj items :: rest)) →
   dict_lookup "text" items = Some (JStr s) → answer_of (JObj fields) = Returned (strip s)) ∧
  (step_run (run_id ctx) "embed-and-search"
     (_search svc (question (event_data ctx)) (default 5 (ev_top_k (event_data ctx)))) w
     = (Returned found, w1) →
   step_run (run_id ctx) "llm-answer-bedrock"
     (_invoke_llm svc (context_block_of (contexts found)) (question (event_data ctx))) w1
     = (Returned res, w2) →
   answer_of res = Returned answer →
   rag_query_pdf_ai svc ctx w =
     (Returned (JObj [("answer", JStr answer);
                      ("sources", JArr (JStr <$> sources found));
                      ("num_contexts", JNumber (str_of_nat (length (contexts found))))]),
      w2)).
Proof.
  repeat split.
  - intros Hc. unfold answer_of. simpl. by rewrite Hc.
  - intros Hc Ht. unfold answer_of. simpl. rewrite Hc. simpl. by rewrite Ht.
  - intros Hc Ht. unfold answer_of. simpl. rewrite Hc. simpl. by rewrite Ht.
  - intros H1 H2 Ha. rewrite (rag_query_pdf_ai_steps _ _ _ _ _ _ _ H1 H2). by rewrite Ha.
Qed.

Lemma answer_read_without_validation_witness :
  let mute := services_of (bedrock (Returned (JObj [("content", JArr [JObj []])]))) in
  let w1 := (step_run "run-2" "embed-and-search" (_search mute "What is X?" 3)
               empty_world).2 in
  let w2 := (rag_query_pdf_ai mute query_ctx empty_world).2 in
  answer_of (JObj [("id", JStr "msg_1")]) = Returned "" ∧
  answer_of (JObj [("content", JArr [JObj [("type", JStr "text")]])]) = Returned "" ∧
  answer_of (JObj [("content", JArr [JObj [("text", JStr " Paris. ")]; JNull])])
    = Returned (strip " Paris. ") ∧
  rag_query_pdf_ai mute query_ctx empty_world =
    (Returned (JObj [("answer", JStr "");
                     ("sources", JArr (JStr <$> []));
                     ("num_contexts", JNumber (str_of_nat (length (@nil string))))]),
     w2).
Proof.
  intros mute w1 w2.
  destruct (answer_read_without_validation mute query_ctx empty_world
              {| contexts := []; sources := [] |} w1 (JObj [("content", JArr [JObj []])]) w2
              [("id", JStr "msg_1")] [] [] "" "") as (Hnone & _ & _ & Hrun).
  destruct (answer_read_without_validation mute query_ctx empty_world
              {| contexts := []; sources := [] |} w1 (JObj [("content", JArr [JObj []])]) w2
              [("content", JArr [JObj [("type", JStr "text")]])]
              [("type", JStr "text")] [] "" "") as (_ & Hnotext & _ & _).
  destruct (answer_read_without_validation mute query_ctx empty_world
              {| contexts := []; sources := [] |} w1 (JObj [("content", JArr [JObj []])]) w2
              [("content", JArr [JObj [("text", JStr " Paris. ")]; JNull])]
              [("text", JStr " Paris. ")] [JNull] "" " Paris. ") as (_ & _ & Htext & _).
  split; [apply Hnone; reflexivity|].
  split; [apply Hnotext; reflexivity|].
  split; [apply Htext; reflexivity|].
  apply Hrun; vm_compute; reflexivity.
Defined.

(** ** Search *)

#[global] Instance by_score_desc_total : Total by_score_desc.
Proof.
  intros a b. unfold by_score_desc.
  destruct (Qlt_le_dec (hit_score a) (hit_score b)) as [Hlt|Hle]; [|by left].
  right. by apply Qlt_le_weak.
Qed.

#[global] Instance by_score_desc_trans : Transitive by_score_desc.
Proof. intros a b c Hab Hbc. unfold by_score_desc in *. by eapply Qle_trans. Qed.

Lemma StronglySorted_take {A} (R : relation A) n l :
  StronglySorted R l → StronglySorted R (take n l).
Proof. intros Hl. rewrite <- (take_drop n l) in Hl. by apply StronglySorted_app_1_l in Hl. Qed.

Lemma StronglySorted_lookup_lt {A} (R : relation A) l :
  StronglySorted R l →
  ∀ i j a b, (i < j)%nat → l !! i = Some a → l !! j = Some b → R a b.
Proof.
  induction 1 as [|x l Hl IH Hx]; intros i j a b Hij Hi Hj; [done|].
  destruct j as [|j]; [lia|]. simpl in Hj. destruct i as [|i]; simpl in Hi.
  - injection Hi as <-. rewrite Forall_forall in Hx. apply Hx.
    by apply list_elem_of_lookup_2 in Hj.
  - apply (IH i j); [lia|done..].
Qed.

(** The records [search] ranks: one scored entry per stored point. *)
Lemma length_nearest svc query_vec top_k (pts : gmap string (json * payload)) :
  length (nearest svc query_vec top_k pts) = (Z.to_nat top_k `min` size pts)%nat.
Proof.
  unfold nearest. rewrite length_take.
  by rewrite merge_sort_Permutation, length_fmap, length_map_to_list.
Qed.

Lemma nearest_sorted svc query_vec top_k (pts : gmap string (json * payload)) :
  StronglySorted by_score_desc (nearest svc query_vec top_k pts).
Proof. apply StronglySorted_take, StronglySorted_merge_sort; apply _. Qed.

(** What a returning [_search] returns: the texts and the sources of the
    ranked records, side by side. *)
Lemma _search_returned svc q k w found w' :
  _search svc q k w = (Returned found, w') →
  ∃ query_vec pts,
    found = {| contexts := hit_text <$> nearest svc query_vec k pts;
               sources := hit_source <$> nearest svc query_vec k pts |}.
Proof.
  unfold _search, bind, embed_texts.
  destruct (embed_loop svc [q] [] w) as [[vecs|e] w1]; [|done].
  unfold lift. destruct (py_index0 (JArr vecs)) as [v|e]; [|done].
  unfold QdrantStorage_search, store_request.
  destruct (qdrant_fault svc _ _); [done|]. simpl. intros [= <- <-].
  by exists v, (points w1).
Qed.

(** C6: for [top_k >= 1] the ranked result of a search has at most [top_k]
    entries, as many as there are stored records when these are fewer, and
    its scores never increase along the sequence; the contexts and sources
    [_search] returns are its projections, so they are at most [top_k] too. *)
Theorem search_at_most_top_k_sorted svc query_vec top_k
    (pts : gmap string (json * payload)) q w found w' :
  1 ≤ top_k →
  let result := nearest svc query_vec top_k pts in
  (length result ≤ Z.to_nat top_k)%nat ∧
  (∀ i j a b, (i ≤ j)%nat → result !! i = Some a → result !! j = Some b →
     (hit_score b <= hit_score a)%Q) ∧
  ((size pts ≤ Z.to_nat top_k)%nat → length result = size pts) ∧
  (_search svc q top_k w = (Returned found, w') →
   (length (contexts found) ≤ Z.to_nat top_k)%nat ∧
   length (sources found) = length (contexts found)).
Proof.
  intros Hk result. split; [|split; [|split]].
  - unfold result. rewrite length_nearest. lia.
  - intros i j a b Hij Hi Hj. destruct (decide (i = j)) as [->|Hne].
    + rewrite Hi in Hj. injection Hj as <-. apply Qle_refl.
    + apply (StronglySorted_lookup_lt _ _ (nearest_sorted svc query_vec top_k pts) i j);
        [lia|done..].
  - intros Hfew. unfold result. rewrite length_nearest. lia.
  - intros Hrun. apply _search_returned in Hrun as (v & pts' & ->). simpl.
    rewrite !length_fmap, length_nearest. lia.
Qed.

Lemma search_at_most_top_k_sorted_witness :
  let client := services_of (bedrock answered) in
  let rec (n t : string) := (t, (JArr [JNumber n], {| source := "doc1"; text := t |})) in
  let pts := upsert_points
               [rec "1" "a"; rec "333" "b"; rec "22" "c"; rec "55555" "d"; rec "4444" "e"] ∅ in
  let w := World [] [] [] pts ∅ [] in
  let found := {| contexts := ["d"; "e"; "b"]; sources := ["doc1"; "doc1"; "doc1"] |} in
  ((length (nearest client JNull 3 pts) ≤ Z.to_nat 3)%nat ∧
   (∀ i j a b, (i ≤ j)%nat → nearest client JNull 3 pts !! i = Some a →
      nearest client JNull 3 pts !! j = Some b → (hit_score b <= hit_score a)%Q) ∧
   (length (contexts found) ≤ Z.to_nat 3)%nat ∧
   length (sources found) = length (contexts found)) ∧
  length (nearest client JNull 7 pts) = size pts.
Proof.
  intros client rec pts w found.
  destruct (search_at_most_top_k_sorted client JNull 3 pts "What is X?" w found
              (_search client "What is X?" 3 w).2 ltac:(lia)) as (Hlen & Hsorted & _ & Hrun).
  destruct (search_at_most_top_k_sorted client JNull 7 pts "What is X?" w found
              (_search client "What is X?" 3 w).2 ltac:(lia)) as (_ & _ & Hfew & _).
  split.
  - split; [exact Hlen|]. split; [exact Hsorted|]. apply Hrun. vm_compute. reflexivity.
  - apply Hfew. vm_compute. lia.
Defined.

(** ** A query that retrieves nothing *)

(** C8: when the search step of a run retrieves zero contexts, the sources
    it retrieved are empty too, the generation step is still invoked, with
    the request built from the empty context block, and the result of the
    run carries whatever answer that response gives, an empty [sources]
    sequence and [num_contexts = 0]. *)
Theorem zero_contexts_still_generates svc (ctx : Context query_event) w found w1 :
  let q := question (event_data ctx) in
  let k := default 5 (ev_top_k (event_data ctx)) in
  step_run (run_id ctx) "embed-and-search" (_search svc q k) w = (Returned found, w1) →
  contexts found = [] →
  cached (step_records w !! (run_id ctx, "embed-and-search")) = None →
  cached (step_records w1 !! (run_id ctx, "llm-answer-bedrock")) = None →
  sources found = [] ∧
  context_block_of (contexts found) = "" ∧
  ∃ w2,
    bedrock_calls w2 = bedrock_calls w1 ++ [llm_request "" q] ∧
    invocations w2 = invocations w1 ++ [(run_id ctx, "llm-answer-bedrock")] ∧
    rag_query_pdf_ai svc ctx w =
      (match bedrock_client svc (bedrock_calls w1) (llm_request "" q) with
       | Returned res =>
           match answer_of res with
           | Returned answer =>
               Returned (JObj [("answer", JStr answer);
                               ("sources", JArr []);
                               ("num_contexts", JNumber "0")])
           | Raised e => Raised e
           end
       | Raised e => Raised e
       end, w2).
Proof.
  intros q k Hsearch Hnone Hfresh1 Hfresh2.
  assert (sources found = []) as Hsrc.
  { rewrite (step_run_invoked _ _ _ _ Hfresh1) in Hsearch. simpl in Hsearch.
    destruct (_search svc q k _) as [[f|e] w0] eqn:Hrun; [|done].
    injection Hsearch as -> _.
    apply _search_returned in Hrun as (v & pts & ->). simpl in *.
    apply fmap_nil_inv in Hnone. by rewrite Hnone. }
  split; [done|]. split; [by rewrite Hnone|].
  destruct (step_run (run_id ctx) "llm-answer-bedrock"
              (_invoke_llm svc (context_block_of (contexts found)) q) w1)
    as [out w2] eqn:Hllm.
  rewrite (rag_query_pdf_ai_steps _ _ _ _ _ _ _ Hsearch Hllm).
  rewrite (step_run_invoked _ _ _ _ Hfresh2) in Hllm. rewrite Hnone in Hllm.
  simpl in Hllm. unfold _invoke_llm, invoke_model in Hllm. simpl in Hllm.
  fold q in Hllm. change (context_block_of []) with "" in Hllm.
  exists w2.
  destruct (bedrock_client svc (bedrock_calls w1) (llm_request "" q)) as [res|e];
    injection Hllm as <- <-; simpl; (split; [done|]); (split; [done|]); [|done].
  destruct (answer_of res); [|done]. unfold query_result. by rewrite Hsrc, Hnone.
Qed.

Lemma zero_contexts_still_generates_witness :
  let client := services_of (bedrock answered) in
  let found := {| contexts := []; sources := [] |} in
  let w1 := (step_run "run-2" "embed-and-search" (_search client "What is X?" 3)
               empty_world).2 in
  sources found = [] ∧
  context_block_of (contexts found) = "" ∧
  ∃ w2,
    bedrock_calls w2 = bedrock_calls w1 ++ [llm_request "" "What is X?"] ∧
    invocations w2 = invocations w1 ++ [("run-2", "llm-answer-bedrock")] ∧
    rag_query_pdf_ai client query_ctx empty_world =
      (match bedrock_client client (bedrock_calls w1) (llm_request "" "What is X?") with
       | Returned res =>
           match answer_of res with
           | Returned answer =>
               Returned (JObj [("answer", JStr answer);
                               ("sources", JArr []);
                               ("num_contexts", JNumber "0")])
           | Raised e => Raised e
           end
       | Raised e => Raised e
       end, w2).
Proof.
  intros client found w1.
  apply (zero_contexts_still_generates client query_ctx empty_world found w1);
    vm_compute; reflexivity.
Defined.

(** ** The chunker *)

Section chunker_properties.
Context {A : Type}.
Variables (size overlap : nat) (boundary : list A → nat).
Hypothesis size_gt_overlap : (overlap < size)%nat.

#[local] Abbreviation cut_of := (cut size overlap boundary).
#[local] Abbreviation chunks_from := (chunk_from size overlap boundary).

Lemma cut_bounds rest : (overlap < cut_of rest ≤ size)%nat.
Proof.
  unfold cut.
  destruct ((overlap <? boundary rest)%nat && (boundary rest <=? size)%nat) eqn:Hb; [|lia].
  apply andb_prop in Hb as [H1 H2].
  apply Nat.ltb_lt in H1. apply Nat.leb_le in H2. lia.
Qed.

(** Every step of the chunker moves on by at least one element. *)
Lemma length_next_start rest :
  (cut_of rest < length rest)%nat →
  (overlap < length (drop (cut_of rest - overlap) rest) < length rest)%nat.
Proof. intros Hlt. pose proof (cut_bounds rest). rewrite length_drop. lia. Qed.

(** With enough fuel the chunks after the first, trimmed, are the text
    from [overlap] on. *)
Lemma chunk_from_trimmed fuel : ∀ rest,
  (length rest ≤ fuel)%nat → (overlap < length rest)%nat →
  concat (drop overlap <$> chunks_from fuel rest) = drop overlap rest.
Proof.
  induction fuel as [|fuel IH]; intros rest Hfuel Hlen; [lia|].
  simpl. pose proof (cut_bounds rest) as Hcut.
  destruct (Nat.leb_spec (length rest) (cut_of rest)) as [Hle|Hlt].
  - simpl. by rewrite app_nil_r.
  - pose proof (length_next_start rest Hlt) as Hnext.
    simpl. rewrite IH by lia. rewrite drop_drop.
    replace (cut_of rest - overlap + overlap)%nat with (cut_of rest) by lia.
    apply drop_take_drop. lia.
Qed.

Lemma unoverlap_chunk_from fuel rest :
  (length rest ≤ fuel)%nat → rest ≠ [] →
  unoverlap overlap (chunks_from fuel rest) = rest.
Proof.
  intros Hfuel Hne. destruct fuel as [|fuel]; [by destruct rest; simpl in *; [|lia]|].
  simpl. pose proof (cut_bounds rest) as Hcut.
  destruct (Nat.leb_spec (length rest) (cut_of rest)) as [Hle|Hlt].
  - simpl. by rewrite app_nil_r.
  - pose proof (length_next_start rest Hlt) as Hnext.
    simpl. rewrite chunk_from_trimmed by lia. rewrite drop_drop.
    replace (cut_of rest - overlap + overlap)%nat with (cut_of rest) by lia.
    apply take_drop.
Qed.

(** No chunk is longer than [size]. *)
Lemma chunk_from_sizes fuel : ∀ rest,
  Forall (λ c, (length c ≤ size)%nat) (chunks_from fuel rest).
Proof.
  induction fuel as [|fuel IH]; intros rest; [constructor|].
  simpl. pose proof (cut_bounds rest) as Hcut.
  destruct (Nat.leb_spec (length rest) (cut_of rest)) as [Hle|Hlt].
  - repeat constructor. lia.
  - constructor; [|apply IH]. rewrite length_take. lia.
Qed.

(** The first chunk of a text longer than [overlap] starts with the first
    [overlap] elements of the text. *)
Lemma chunk_from_head fuel rest c :
  (overlap < length rest)%nat → chunks_from fuel rest !! 0%nat = Some c →
  take overlap c = take overlap rest.
Proof.
  intros Hlen. destruct fuel as [|fuel]; [done|]. simpl.
  pose proof (cut_bounds rest) as Hcut.
  destruct (Nat.leb_spec (length rest) (cut_of rest)) as [Hle|Hlt]; simpl; intros [= <-];
    [done|].
  rewrite take_take. f_equal. lia.
Qed.

(** The trailing [overlap]-sized slice of a chunk is the start of the
    next chunk. *)
Lemma chunk_from_overlap fuel : ∀ rest i c c',
  chunks_from fuel rest !! i = Some c → chunks_from fuel rest !! S i = Some c' →
  take overlap c' = drop (length c - overlap) c.
Proof.
  induction fuel as [|fuel IH]; intros rest i c c' Hc Hc'; [done|].
  simpl in Hc, Hc'. pose proof (cut_bounds rest) as Hcut.
  destruct (Nat.leb_spec (length rest) (cut_of rest)) as [Hle|Hlt]; [done|].
  pose proof (length_next_start rest Hlt) as Hnext.
  destruct i as [|i]; simpl in Hc, Hc'; [|by eapply IH].
  injection Hc as <-.
  rewrite (chunk_from_head fuel (drop (cut_of rest - overlap) rest) c' (proj1 Hnext) Hc').
  rewrite length_take, Nat.min_l by lia.
  rewrite take_drop_commute. f_equal. f_equal. lia.
Qed.

(** The chunks of a text, trimmed and concatenated, are the text. *)
Lemma unoverlap_chunk (text : list A) :
  unoverlap overlap (chunk size overlap boundary text) = text.
Proof.
  unfold chunk. destruct text as [|a text]; [done|].
  by apply unoverlap_chunk_from.
Qed.

(** C5: for [size > overlap >= 0], concatenating the chunks of a text,
    with the leading [overlap]-sized slice trimmed from every chunk but
    the first, gives the text back. *)
Theorem chunk_round_trip (text : list A) :
  unoverlap overlap (chunk size overlap boundary text) = text.
Proof.
  unfold chunk. destruct text as [|a text]; [reflexivity|].
  apply unoverlap_chunk_from; [lia|discriminate].
Qed.
End chunker_properties.

Lemma chunk_round_trip_witness :
  (2 < 4)%nat ∧
  chunk 4 2 (λ _, 3%nat) [0; 1; 2; 3; 4; 5; 6; 7; 8]
    = [[0; 1; 2]; [1; 2; 3]; [2; 3; 4]; [3; 4; 5]; [4; 5; 6]; [5; 6; 7]; [6; 7; 8]] ∧
  unoverlap 2 (chunk 4 2 (λ _, 3%nat) [0; 1; 2; 3; 4; 5; 6; 7; 8])
    = [0; 1; 2; 3; 4; 5; 6; 7; 8].
Proof.
  split; [lia|]. split; [reflexivity|].
  apply (chunk_round_trip 4 2 (λ _, 3%nat)). lia.
Defined.

(** ** [load_and_chunk_pdf] *)

Lemma split_text_round_trip svc t : rejoin (split_text svc t) = t.
Proof.
  unfold rejoin, split_text. rewrite <- list_fmap_compose.
  rewrite (list_fmap_ext _ id _ (λ _ x _, list_ascii_of_string_of_list_ascii x)).
  rewrite list_fmap_id, unoverlap_chunk by (unfold chunk_size, chunk_overlap; lia).
  apply string_of_list_ascii_of_string.
Qed.

Lemma foldl_extend {A B} (f : B → list A) (l : list B) : ∀ acc,
  foldl (λ chunks t, chunks ++ f t) acc l = acc ++ concat (f <$> l).
Proof.
  induction l as [|t l IH]; intros acc; simpl; [by rewrite app_nil_r|].
  by rewrite IH, app_assoc.
Qed.

(** [load_and_chunk_pdf] chunks the non-empty page texts one by one and
    returns their chunks in page order; the chunks of each page give the
    page's text back. *)
Lemma load_and_chunk_pdf_pages svc path w chunks w' :
  load_and_chunk_pdf svc path w = (Returned chunks, w') →
  ∃ docs,
    PDFReader svc (pdf_reads w) path = Returned docs ∧
    chunks = concat (split_text svc <$> omap truthy_text docs) ∧
    rejoin <$> (split_text svc <$> omap truthy_text docs) = omap truthy_text docs.
Proof.
  unfold load_and_chunk_pdf, bind, load_data, ret.
  destruct (PDFReader svc (pdf_reads w) path) as [docs|e]; [|done].
  intros [= <- <-]. exists docs. split; [done|]. split; [apply (foldl_extend _ _ [])|].
  rewrite <- list_fmap_compose.
  rewrite (list_fmap_ext _ id _ (λ _ x _, split_text_round_trip svc x)).
  apply list_fmap_id.
Qed.

(** Overlap is not carried from one page to the next. *)
Example pages_are_chunked_apart :
  (load_and_chunk_pdf (services_of (bedrock answered)) "doc.pdf" empty_world).1
    = Returned ["One paragraph."; "Second page."] ∧
  rejoin ["One paragraph."; "Second page."] = "One paragraph.".
Proof. split; vm_compute; reflexivity. Qed.

(** * Further properties of the code *)

(** ** [load_and_chunk_pdf] *)

Lemma page_chunks_app svc docs1 docs2 :
  page_chunks svc (docs1 ++ docs2) = page_chunks svc docs1 ++ page_chunks svc docs2.
Proof.
  unfold page_chunks. rewrite omap_app, !foldl_extend, fmap_app, concat_app. done.
Qed.

(** X1: a page without text ([None] or the empty string) contributes no
    chunk, and the chunks of the pages before it come before the chunks of
    the pages after it; the call reads the path once and changes nothing
    else. *)
Theorem load_and_chunk_pdf_skips_textless_pages svc path w docs1 d docs2 :
  PDFReader svc (pdf_reads w) path = Returned (docs1 ++ d :: docs2) →
  d_text d = None ∨ d_text d = Some "" →
  load_and_chunk_pdf svc path w
  = (Returned (page_chunks svc docs1 ++ page_chunks svc docs2), log_read path w).
Proof.
  intros Hread Htext. unfold load_and_chunk_pdf, bind, load_data, ret. rewrite Hread.
  f_equal. f_equal.
  change (page_chunks svc (docs1 ++ d :: docs2)
          = page_chunks svc docs1 ++ page_chunks svc docs2).
  rewrite (page_chunks_app svc docs1 (d :: docs2)). f_equal.
  unfold page_chunks. simpl. unfold truthy_text at 1.
  by destruct Htext as [-> | ->].
Qed.

Lemma load_and_chunk_pdf_skips_textless_pages_witness :
  load_and_chunk_pdf (services_of (bedrock answered)) "doc.pdf" empty_world
  = (Returned
       (page_chunks (services_of (bedrock answered)) [ {| d_text := Some "One paragraph." |} ]
        ++ page_chunks (services_of (bedrock answered))
             [ {| d_text := None |}; {| d_text := Some "Second page." |} ]),
     log_read "doc.pdf" empty_world).
Proof.
  apply (load_and_chunk_pdf_skips_textless_pages _ _ _
           [ {| d_text := Some "One paragraph." |} ] {| d_text := Some "" |}
           [ {| d_text := None |}; {| d_text := Some "Second page." |} ]).
  - reflexivity.
  - right. reflexivity.
Defined.

(** ** [embed_texts] *)

(** X2: a batch that returns has sent exactly one request per text, in the
    order of the texts, each [{"inputText": text}] to the embedding model,
    and has touched nothing else. *)
Theorem embed_texts_one_request_per_text svc texts w vecs w' :
  embed_texts svc texts w = (Returned vecs, w') →
  bedrock_calls w' = bedrock_calls w ++ (embed_request <$> texts) ∧
  pdf_reads w' = pdf_reads w ∧ store_calls w' = store_calls w ∧
  points w' = points w ∧ step_records w' = step_records w ∧
  invocations w' = invocations w.
Proof.
  intros Hrun. apply embed_loop_returned in Hrun as (-> & _).
  split; [apply bedrock_calls_logged|apply logged_frame].
Qed.

Lemma embed_texts_one_request_per_text_witness :
  let client := services_of (bedrock answered) in
  let w' := (embed_texts client ["a"; "bb"] empty_world).2 in
  bedrock_calls w' = bedrock_calls empty_world ++ (embed_request <$> ["a"; "bb"]) ∧
  pdf_reads w' = pdf_reads empty_world ∧ store_calls w' = store_calls empty_world ∧
  points w' = points empty_world ∧ step_records w' = step_records empty_world ∧
  invocations w' = invocations empty_world.
Proof.
  intros client w'.
  apply (embed_texts_one_request_per_text client ["a"; "bb"] empty_world
           [JArr [JNumber "1"]; JArr [JNumber "2"]]).
  vm_compute. reflexivity.
Defined.


(** X4: a response that is not a dict (a list, a string, a number, null)
    makes the batch raise [AttributeError] at the first such text, and no
    list is returned. *)
Theorem embed_texts_non_dict_response_raises svc texts w i text response_body :
  texts !! i = Some text →
  (∀ j t, (j < i)%nat → texts !! j = Some t →
     ∃ v, embedding_of svc (bedrock_calls w) texts j t = Returned v) →
  bedrock_client svc (bedrock_calls w ++ (embed_request <$> take i texts))
    (embed_request text) = Returned response_body →
  (∀ fields, response_body ≠ JObj fields) →
  ∃ e, embed_texts svc texts w
       = (Raised e, logged (embed_request <$> take (S i) texts) w) ∧
       exc_class e = "AttributeError".
Proof.
  intros Hi Hbefore Hresp Hnodict.
  exists (AttributeError "object has no attribute 'get'"). split; [|done].
  apply (embed_loop_raised svc texts [] w i text); [done..|].
  unfold embedding_of, embedding1. rewrite Hresp.
  destruct response_body; try done. by destruct (Hnodict fields).
Qed.


Lemma embed_texts_non_dict_response_raises_witness :
  ∃ e, embed_texts (services_of sparse) ["a"; "list"; "c"] empty_world
       = (Raised e, logged (embed_request <$> take 2 ["a"; "list"; "c"]) empty_world) ∧
       exc_class e = "AttributeError".
Proof.
  apply (embed_texts_non_dict_response_raises (services_of sparse) ["a"; "list"; "c"]
           empty_world 1%nat "list" (JArr [])).
  - reflexivity.
  - intros [|j] t Hj Ht; [|lia]. vm_compute in Ht. injection Ht as <-.
    eexists. vm_compute. reflexivity.
  - vm_compute. reflexivity.
  - intros fields. discriminate.
Defined.

(** ** [_upsert] *)

(** X5: when the embedding of the chunks raises, [_upsert] raises the same
    exception and the store is never called: nothing of the batch is
    written. *)
Theorem _upsert_embedding_failure_writes_nothing svc cs w e w1 :
  embed_texts svc (chunks cs) w = (Raised e, w1) →
  _upsert svc cs w = (Raised e, w1) ∧
  store_calls w1 = store_calls w ∧ points w1 = points w.
Proof.
  intros Hemb. rewrite _upsert_unfold, Hemb. split; [done|].
  destruct (embed_loop_frame svc (chunks cs) []) as (_ & Hs & Hp & _).
  specialize (Hs w). specialize (Hp w). unfold embed_texts in Hemb.
  rewrite Hemb in Hs, Hp. done.
Qed.

Lemma _upsert_embedding_failure_writes_nothing_witness :
  let client := services_of (bedrock answered) in
  let cs := {| chunks := ["a"; "boom"; "c"]; source_id := "doc1" |} in
  let w1 := (embed_texts client (chunks cs) empty_world).2 in
  _upsert client cs empty_world = (Raised (PyExc "ClientError" "ThrottlingException"), w1) ∧
  store_calls w1 = store_calls empty_world ∧ points w1 = points empty_world.
Proof.
  intros client cs w1.
  apply (_upsert_embedding_failure_writes_nothing client cs empty_world).
  vm_compute. reflexivity.
Defined.



(** ** [_search] *)

(** [_search], step by step. *)
Lemma _search_unfold svc q k w :
  _search svc q k w =
  let w1 := log_bedrock (embed_request q) w in
  match embedding1 svc (bedrock_calls w) q with
  | Raised e => (Raised e, w1)
  | Returned query_vec =>
      match qdrant_fault svc (store_calls w) (Search query_vec k) with
      | Some e => (Raised e, log_store (Search query_vec k) w1)
      | None =>
          let found := nearest svc query_vec k (points w) in
          (Returned {| contexts := hit_text <$> found; sources := hit_source <$> found |},
           log_store (Search query_vec k) w1)
      end
  end.
Proof.
  unfold _search, bind, embed_texts. rewrite embed_loop_cons.
  destruct (embedding1 svc (bedrock_calls w) q) as [v|e]; [|done]. simpl.
  unfold QdrantStorage_search, store_request. simpl.
  by destruct (qdrant_fault svc (store_calls w) (Search v k)).
Qed.

(** X7: when embedding the question raises, [_search] raises the same
    exception after that single request, and the store is not queried. *)
Theorem _search_embedding_failure_skips_store svc q k w e :
  embedding1 svc (bedrock_calls w) q = Raised e →
  _search svc q k w = (Raised e, log_bedrock (embed_request q) w) ∧
  store_calls (_search svc q k w).2 = store_calls w.
Proof. intros He. rewrite _search_unfold. simpl. by rewrite He. Qed.

Lemma _search_embedding_failure_skips_store_witness :
  let client := services_of (bedrock answered) in
  _search client "boom" 3 empty_world
  = (Raised (PyExc "ClientError" "ThrottlingException"),
     log_bedrock (embed_request "boom") empty_world) ∧
  store_calls (_search client "boom" 3 empty_world).2 = store_calls empty_world.
Proof.
  intros client. apply (_search_embedding_failure_skips_store client "boom" 3 empty_world).
  vm_compute. reflexivity.
Defined.

(** X8: when the question is embedded, [_search] queries the store exactly
    once, with the vector obtained for the question (whatever it is, [None]
    included) and the given [top_k]; the index [0] of the one-element batch
    never fails, so the only exceptions are the one of the embedding call
    and the one of the store. *)
Theorem _search_queries_store_once svc q k w query_vec :
  embedding1 svc (bedrock_calls w) q = Returned query_vec →
  let w' := (_search svc q k w).2 in
  bedrock_calls w' = bedrock_calls w ++ [embed_request q] ∧
  store_calls w' = store_calls w ++ [Search query_vec k] ∧
  points w' = points w ∧
  match qdrant_fault svc (store_calls w) (Search query_vec k) with
  | Some e => (_search svc q k w).1 = Raised e
  | None =>
      (_search svc q k w).1
      = Returned {| contexts := hit_text <$> nearest svc query_vec k (points w);
                    sources := hit_source <$> nearest svc query_vec k (points w) |}
  end.
Proof.
  intros He w'. unfold w'. rewrite _search_unfold. simpl. rewrite He.
  by destruct (qdrant_fault svc (store_calls w) (Search query_vec k)).
Qed.

Lemma _search_queries_store_once_witness :
  let client := services_of sparse in
  let w' := (_search client "gap" 4 empty_world).2 in
  bedrock_calls w' = bedrock_calls empty_world ++ [embed_request "gap"] ∧
  store_calls w' = store_calls empty_world ++ [Search JNull 4] ∧
  points w' = points empty_world ∧
  match qdrant_fault client (store_calls empty_world) (Search JNull 4) with
  | Some e => (_search client "gap" 4 empty_world).1 = Raised e
  | None =>
      (_search client "gap" 4 empty_world).1
      = Returned {| contexts := hit_text <$> nearest client JNull 4 (points empty_world);
                    sources := hit_source <$> nearest client JNull 4 (points empty_world) |}
  end.
Proof.
  intros client.
  apply (_search_queries_store_once client "gap" 4 empty_world JNull).
  vm_compute. reflexivity.
Defined.

(** ** Chunk ids *)

Lemma chunk_id_name source_id i : chunk_id source_id i = uuid5 NAMESPACE_URL (chunk_name source_id i).
Proof. reflexivity. Qed.

Lemma str_of_nat_inj i j : str_of_nat i = str_of_nat j → i = j.
Proof.
  unfold str_of_nat. intros Heq. apply Unsigned.to_uint_inj.
  apply (f_equal NilEmpty.uint_of_string) in Heq. rewrite !NilEmpty.usu in Heq.
  by injection Heq.
Qed.

(** A string with a colon in it is not a decimal numeral. *)
Lemma uint_of_string_colon a d : NilEmpty.uint_of_string (a +:+ String ":" d) = None.
Proof.
  induction a as [|c a IH]; simpl.
  - by destruct (NilEmpty.uint_of_string d).
  - by rewrite IH.
Qed.

Lemma append_colon_inj a : ∀ b d1 d2,
  is_Some (NilEmpty.uint_of_string d1) → is_Some (NilEmpty.uint_of_string d2) →
  a +:+ String ":" d1 = b +:+ String ":" d2 → a = b ∧ d1 = d2.
Proof.
  induction a as [|x a IH]; intros [|y b] d1 d2 H1 H2 Heq; simpl in Heq.
  - by injection Heq.
  - injection Heq as _ ->. rewrite uint_of_string_colon in H1. by destruct H1.
  - injection Heq as _ <-. rewrite uint_of_string_colon in H2. by destruct H2.
  - injection Heq as -> Heq. destruct (IH b d1 d2 H1 H2 Heq) as [-> ->]. done.
Qed.

(** X9: the name hashed for a chunk, [f"{source_id}:{i}"], determines both
    the source id and the index: two chunks get the same name only if they
    are the same chunk of the same source. *)
Theorem chunk_name_inj s1 i1 s2 i2 :
  chunk_name s1 i1 = chunk_name s2 i2 → s1 = s2 ∧ i1 = i2.
Proof.
  unfold chunk_name. simpl. intros Heq.
  apply append_colon_inj in Heq as [-> Heq].
  - split; [done|]. by apply str_of_nat_inj.
  - unfold str_of_nat. by rewrite NilEmpty.usu.
  - unfold str_of_nat. by rewrite NilEmpty.usu.
Qed.

Lemma chunk_name_inj_witness : "doc:1" = "doc:1" ∧ 12%nat = 12%nat.
Proof. apply (chunk_name_inj "doc:1" 12 "doc:1" 12). reflexivity. Defined.

Lemma length_be_bytes n : ∀ x, length (SHA1.be_bytes n x) = n.
Proof.
  induction n as [|n IH]; intros x; simpl; [done|].
  rewrite length_app, IH. simpl. lia.
Qed.

Lemma length_digest msg : length (SHA1.digest msg) = 20%nat.
Proof.
  unfold SHA1.digest. destruct (foldl _ _ _) as [[[[h0 h1] h2] h3] h4].
  rewrite !length_app, !length_be_bytes. done.
Qed.

Lemma version_nibble x : Z.shiftr (Z.lor (Z.land x 0x0F) 0x50) 4 = 5.
Proof.
  rewrite Z.shiftr_lor, Z.shiftr_land. change (Z.shiftr 15 4) with 0.
  by rewrite Z.land_0_r.
Qed.

Lemma hex_byte_two_chars b :
  hex_byte b =
  String (ascii_of_N (Z.to_N (if Z.shiftr b 4 <? 10 then 48 + Z.shiftr b 4
                              else 87 + Z.shiftr b 4)))
    (String (ascii_of_N (Z.to_N (if Z.land b 15 <? 10 then 48 + Z.land b 15
                                 else 87 + Z.land b 15))) "").
Proof. reflexivity. Qed.

Lemma hex_byte_version x :
  ∃ c, hex_byte (Z.lor (Z.land x 0x0F) 0x50) = String "5" (String c "").
Proof. eexists. rewrite hex_byte_two_chars, version_nibble. reflexivity. Qed.

(** X10: every id has the textual form of a version-5 UUID: five groups of
    8, 4, 4, 4 and 12 characters separated by hyphens, 36 characters in all,
    the third group starting with the version digit 5. *)
Theorem chunk_id_uuid_form source_id i :
  ∃ g1 g2 g3 g4 g5,
    chunk_id source_id i
    = g1 +:+ "-" +:+ g2 +:+ "-" +:+ String "5" g3 +:+ "-" +:+ g4 +:+ "-" +:+ g5 ∧
    String.length g1 = 8%nat ∧ String.length g2 = 4%nat ∧ String.length g3 = 3%nat ∧
    String.length g4 = 4%nat ∧ String.length g5 = 12%nat ∧
    String.length (chunk_id source_id i) = 36%nat.
Proof.
  unfold chunk_id, uuid5.
  pose proof (length_digest (NAMESPACE_URL ++ bytes_of_string (source_id +:+ ":" +:+ str_of_nat i)))
    as Hlen.
  set (h := SHA1.digest _) in *. clearbody h.
  do 20 (destruct h as [|? h]; [discriminate Hlen|]). destruct h; [|discriminate Hlen].
  cbn [take drop imap app hex foldr Nat.eqb compose].
  destruct (hex_byte_version z5) as [c ->]. rewrite !hex_byte_two_chars.
  cbn [String.append].
  eexists (String _ (String _ (String _ (String _ (String _ (String _ (String _ (String _ "")))))))),
          (String _ (String _ (String _ (String _ "")))),
          (String _ (String _ (String _ ""))),
          (String _ (String _ (String _ (String _ "")))), _.
  split; [cbn [String.append]; reflexivity|].
  repeat split; reflexivity.
Qed.

(** ** The answer of the generation response *)

(** X11: what [res.get("content", [{}])[0].get("text", "").strip()] does on a
    malformed response.  A response that is not a dict, a first content item
    that is not a dict, and a text that is not a string raise
    [AttributeError]; an empty content list raises [IndexError]; a content
    that is null, a boolean or a number raises [TypeError]; a content that is
    a dict raises [KeyError].  In each case the run that obtained the
    response raises that exception instead of returning a result. *)
Theorem answer_of_malformed_response
    svc ctx w found w1 res w2 e fields first rest items t :
  ((∀ fs, res ≠ JObj fs) →
   ∃ x, answer_of res = Raised x ∧ exc_class x = "AttributeError") ∧
  (dict_lookup "content" fields = Some (JArr []) →
   ∃ x, answer_of (JObj fields) = Raised x ∧ exc_class x = "IndexError") ∧
  (dict_lookup "content" fields = Some (JArr (first :: rest)) →
   (∀ its, first ≠ JObj its) →
   ∃ x, answer_of (JObj fields) = Raised x ∧ exc_class x = "AttributeError") ∧
  (dict_lookup "content" fields = Some (JArr (JObj items :: rest)) →
   dict_lookup "text" items = Some t → (∀ s, t ≠ JStr s) →
   ∃ x, answer_of (JObj fields) = Raised x ∧ exc_class x = "AttributeError") ∧
  (dict_lookup "content" fields = Some first →
   (first = JNull ∨ (∃ b, first = JBool b) ∨ (∃ n, first = JNumber n)) →
   ∃ x, answer_of (JObj fields) = Raised x ∧ exc_class x = "TypeError") ∧
  (dict_lookup "content" fields = Some (JObj items) →
   ∃ x, answer_of (JObj fields) = Raised x ∧ exc_class x = "KeyError") ∧
  (step_run (run_id ctx) "embed-and-search"
     (_search svc (question (event_data ctx)) (default 5 (ev_top_k (event_data ctx)))) w
     = (Returned found, w1) →
   step_run (run_id ctx) "llm-answer-bedrock"
     (_invoke_llm svc (context_block_of (contexts found)) (question (event_data ctx))) w1
     = (Returned res, w2) →
   answer_of res = Raised e →
   rag_query_pdf_ai svc ctx w = (Raised e, w2)).
Proof.
  split; [|split; [|split; [|split; [|split; [|split]]]]].
  - intros Hnodict. destruct res; try (eexists; split; reflexivity).
    by destruct (Hnodict fields0).
  - intros Hc. unfold answer_of. simpl. rewrite Hc. simpl. eexists. split; reflexivity.
  - intros Hc Hnodict. unfold answer_of. simpl. rewrite Hc. simpl.
    destruct first; try (eexists; split; reflexivity). by destruct (Hnodict fields0).
  - intros Hc Ht Hnostr. unfold answer_of. simpl. rewrite Hc. simpl. rewrite Ht. simpl.
    destruct t; try (eexists; split; reflexivity). by destruct (Hnostr s).
  - intros Hc Hkind. unfold answer_of. simpl. rewrite Hc. simpl.
    destruct Hkind as [->|[[b ->]|[n ->]]]; eexists; split; reflexivity.
  - intros Hc. unfold answer_of. simpl. rewrite Hc. simpl. eexists. split; reflexivity.
  - intros H1 H2 Ha. rewrite (rag_query_pdf_ai_steps _ _ _ _ _ _ _ H1 H2). by rewrite Ha.
Qed.

Lemma answer_of_malformed_response_witness :
  let mute := services_of (bedrock (Returned (JObj [("content", JArr [])]))) in
  (∃ x, answer_of (JArr []) = Raised x ∧ exc_class x = "AttributeError") ∧
  (∃ x, answer_of (JObj [("content", JArr [])]) = Raised x ∧ exc_class x = "IndexError") ∧
  (∃ x, answer_of (JObj [("content", JArr [JStr "hi"])]) = Raised x ∧
        exc_class x = "AttributeError") ∧
  (∃ x, answer_of (JObj [("content", JArr [JObj [("text", JNull)]])]) = Raised x ∧
        exc_class x = "AttributeError") ∧
  (∃ x, answer_of (JObj [("content", JNull)]) = Raised x ∧ exc_class x = "TypeError") ∧
  (∃ x, answer_of (JObj [("content", JObj [])]) = Raised x ∧ exc_class x = "KeyError") ∧
  rag_query_pdf_ai mute query_ctx empty_world
  = (Raised (IndexError "list index out of range"),
     (rag_query_pdf_ai mute query_ctx empty_world).2).
Proof.
  intros mute.
  pose (w1 := (step_run "run-2" "embed-and-search" (_search mute "What is X?" 3)
                 empty_world).2).
  pose (found := {| contexts := []; sources := [] |}).
  pose (w2 := (rag_query_pdf_ai mute query_ctx empty_world).2).
  pose (e := IndexError "list index out of range").
  split; [|split; [|split; [|split; [|split; [|split]]]]].
  - destruct (answer_of_malformed_response mute query_ctx empty_world found w1 (JArr []) w2 e
                [] JNull [] [] JNull) as (H & _).
    apply H. intros fs. discriminate.
  - destruct (answer_of_malformed_response mute query_ctx empty_world found w1 (JArr []) w2 e
                [("content", JArr [])] JNull [] [] JNull) as (_ & H & _).
    apply H. reflexivity.
  - destruct (answer_of_malformed_response mute query_ctx empty_world found w1 (JArr []) w2 e
                [("content", JArr [JStr "hi"])] (JStr "hi") [] [] JNull) as (_ & _ & H & _).
    apply H; [reflexivity|intros its; discriminate].
  - destruct (answer_of_malformed_response mute query_ctx empty_world found w1 (JArr []) w2 e
                [("content", JArr [JObj [("text", JNull)]])] JNull [] [("text", JNull)] JNull)
      as (_ & _ & _ & H & _).
    apply H; [reflexivity|reflexivity|intros s; discriminate].
  - destruct (answer_of_malformed_response mute query_ctx empty_world found w1 (JArr []) w2 e
                [("content", JNull)] JNull [] [] JNull) as (_ & _ & _ & _ & H & _).
    apply H; [reflexivity|by left].
  - destruct (answer_of_malformed_response mute query_ctx empty_world found w1 (JArr []) w2 e
                [("content", JObj [])] JNull [] [] JNull) as (_ & _ & _ & _ & _ & H & _).
    apply H. reflexivity.
  - destruct (answer_of_malformed_response mute query_ctx empty_world found w1
                (JObj [("content", JArr [])]) w2 e [] JNull [] [] JNull)
      as (_ & _ & _ & _ & _ & _ & H).
    apply H; vm_compute; reflexivity.
Defined.

(** ** The context block *)

Lemma append_assoc (a b c : string) : (a +:+ b) +:+ c = a +:+ (b +:+ c).
Proof.
  induction a as [|x a IH]; [done|].
  change (String x ((a +:+ b) +:+ c) = String x (a +:+ (b +:+ c))). by rewrite IH.
Qed.

Lemma join_app sep (ps1 ps2 : list string) :
  ps1 ≠ [] → ps2 ≠ [] → join sep (ps1 ++ ps2) = join sep ps1 +:+ sep +:+ join sep ps2.
Proof.
  intros H1 H2. induction ps1 as [|p ps1 IH]; [done|].
  destruct ps1 as [|p' ps1].
  - simpl. by destruct ps2.
  - change (join sep ((p :: p' :: ps1) ++ ps2))
      with (p +:+ sep +:+ join sep ((p' :: ps1) ++ ps2)).
    rewrite IH by done.
    change (join sep (p :: p' :: ps1)) with (p +:+ sep +:+ join sep (p' :: ps1)).
    by rewrite !append_assoc.
Qed.

(** X12: the context block keeps the retrieved contexts in their order, each
    after ["- "], with a blank line between consecutive ones: the block of
    two non-empty runs of contexts is the block of the first, a blank line,
    and the block of the second; and the block is empty only when nothing
    was retrieved. *)
Theorem context_block_keeps_order cs1 cs2 :
  (cs1 ≠ [] → cs2 ≠ [] →
   context_block_of (cs1 ++ cs2)
   = context_block_of cs1 +:+ chr 10 +:+ chr 10 +:+ context_block_of cs2) ∧
  (context_block_of cs1 = "" ↔ cs1 = []) ∧
  (∀ c, context_block_of [c] = "- " +:+ c).
Proof.
  split; [|split].
  - intros H1 H2. unfold context_block_of. rewrite fmap_app, join_app.
    + by rewrite !append_assoc.
    + by destruct cs1.
    + by destruct cs2.
  - split; [|by intros ->].
    destruct cs1 as [|c [|c' cs]]; [done|discriminate..].
  - done.
Qed.

Lemma context_block_keeps_order_witness :
  context_block_of (["a"; "b"] ++ ["c"])
  = context_block_of ["a"; "b"] +:+ chr 10 +:+ chr 10 +:+ context_block_of ["c"].
Proof.
  apply (context_block_keeps_order ["a"; "b"] ["c"]); discriminate.
Defined.

(** ** Whole runs *)

Lemma _load_unfold svc ctx w :
  _load svc ctx w =
  let path := pdf_path (event_data ctx) in
  match PDFReader svc (pdf_reads w) path with
  | Returned docs =>
      (Returned {| chunks := page_chunks svc docs;
                   source_id := default path (ev_source_id (event_data ctx)) |},
       log_read path w)
  | Raised e => (Raised e, log_read path w)
  end.
Proof.
  unfold _load, load_and_chunk_pdf, bind, load_data, ret. simpl.
  by destruct (PDFReader svc (pdf_reads w) (pdf_path (event_data ctx))).
Qed.

(** X13: a first run of the ingest pipeline whose document is read, whose
    chunks are all embedded and whose upsert is accepted reads the path
    once, sends one embedding request per chunk in chunk order, makes one
    upsert under the ids of the source id (the path when the event gives
    none), invokes each step once and returns [{"ingested": n}] for the [n]
    chunks of the document. *)
Theorem rag_ingest_pdf_first_run svc (ctx : Context ingest_event) w docs :
  let path := pdf_path (event_data ctx) in
  let cs := {| chunks := page_chunks svc docs;
               source_id := default path (ev_source_id (event_data ctx)) |} in
  cached (step_records w !! (run_id ctx, "load-and-chunk")) = None →
  cached (step_records w !! (run_id ctx, "embed-and-upsert")) = None →
  PDFReader svc (pdf_reads w) path = Returned docs →
  (∀ i text, chunks cs !! i = Some text →
     ∃ e, embedding_of svc (bedrock_calls w) (chunks cs) i text = Returned e) →
  (∀ vecs, qdrant_fault svc (store_calls w) (Upsert (ids_of cs) vecs (payloads_of cs)) = None) →
  ∃ vecs w',
    rag_ingest_pdf svc ctx w
    = (Returned (JObj [("ingested", JNumber (str_of_nat (length (page_chunks svc docs))))]),
       w') ∧
    pdf_reads w' = pdf_reads w ++ [path] ∧
    bedrock_calls w' = bedrock_calls w ++ (embed_request <$> page_chunks svc docs) ∧
    store_calls w' = store_calls w ++ [Upsert (ids_of cs) vecs (payloads_of cs)] ∧
    invocations w'
    = invocations w ++ [(run_id ctx, "load-and-chunk"); (run_id ctx, "embed-and-upsert")].
Proof.
  intros path cs Hfresh1 Hfresh2 Hread Hembed Hstore.
  unfold rag_ingest_pdf, bind.
  rewrite (step_run_invoked _ _ _ _ Hfresh1). simpl.
  rewrite _load_unfold. simpl. fold path. rewrite Hread. fold cs.
  rewrite step_run_invoked
    by (simpl; rewrite !lookup_insert_ne by apply load_key_ne_upsert_key; done).
  simpl. rewrite _upsert_unfold.
  match goal with |- context [embed_texts svc (chunks cs) ?w0] => set (w2 := w0) end.
  destruct (embed_loop_total svc (chunks cs) [] w2 Hembed) as [vecs Hrun].
  unfold embed_texts. rewrite Hrun. simpl.
  destruct (logged_frame (embed_request <$> page_chunks svc docs) w2)
    as (Hp & Hs & _ & _ & Hi).
  rewrite Hs. simpl. rewrite Hstore.
  exists vecs. eexists. split; [reflexivity|]. simpl.
  rewrite Hp, Hs, Hi, bedrock_calls_logged. simpl.
  by rewrite <- app_assoc.
Qed.

Lemma rag_ingest_pdf_first_run_witness :
  let client := services_of (bedrock answered) in
  let ctx := {| run_id := "run-4";
                event_data := {| pdf_path := "doc.pdf"; ev_source_id := None |} |} in
  let docs := [ {| d_text := Some "One paragraph." |}; {| d_text := Some "" |};
                {| d_text := None |}; {| d_text := Some "Second page." |} ] in
  let cs := {| chunks := page_chunks client docs; source_id := "doc.pdf" |} in
  ∃ vecs w',
    rag_ingest_pdf client ctx empty_world
    = (Returned (JObj [("ingested", JNumber (str_of_nat (length (page_chunks client docs))))]),
       w') ∧
    pdf_reads w' = pdf_reads empty_world ++ ["doc.pdf"] ∧
    bedrock_calls w' = bedrock_calls empty_world ++ (embed_request <$> page_chunks client docs) ∧
    store_calls w' = store_calls empty_world ++ [Upsert (ids_of cs) vecs (payloads_of cs)] ∧
    invocations w'
    = invocations empty_world ++ [("run-4", "load-and-chunk"); ("run-4", "embed-and-upsert")].
Proof.
  intros client ctx docs cs.
  apply (rag_ingest_pdf_first_run client ctx empty_world docs).
  - reflexivity.
  - reflexivity.
  - reflexivity.
  - intros [|[|i]] text Hi; vm_compute in Hi; try discriminate;
      injection Hi as <-; eexists; vm_compute; reflexivity.
  - intros vecs. reflexivity.
Defined.

(** X14: when the document cannot be read, a first run of the ingest
    pipeline raises the reader's exception in its load step: nothing is
    embedded, the store is not called, and the second step is not invoked. *)
Theorem rag_ingest_pdf_unreadable svc (ctx : Context ingest_event) w e :
  cached (step_records w !! (run_id ctx, "load-and-chunk")) = None →
  PDFReader svc (pdf_reads w) (pdf_path (event_data ctx)) = Raised e →
  ∃ w', rag_ingest_pdf svc ctx w = (Raised e, w') ∧
        pdf_reads w' = pdf_reads w ++ [pdf_path (event_data ctx)] ∧
        bedrock_calls w' = bedrock_calls w ∧
        store_calls w' = store_calls w ∧
        points w' = points w ∧
        invocations w' = invocations w ++ [(run_id ctx, "load-and-chunk")].
Proof.
  intros Hfresh Hread. unfold rag_ingest_pdf, bind.
  rewrite (step_run_invoked _ _ _ _ Hfresh). simpl.
  rewrite _load_unfold. simpl. rewrite Hread.
  eexists. split; [reflexivity|]. done.
Qed.

Lemma rag_ingest_pdf_unreadable_witness :
  let client := services_of (bedrock answered) in
  let ctx := {| run_id := "run-5";
                event_data := {| pdf_path := "missing.pdf"; ev_source_id := None |} |} in
  ∃ w', rag_ingest_pdf client ctx empty_world
        = (Raised (PyExc "FileNotFoundError" "missing.pdf"), w') ∧
        pdf_reads w' = pdf_reads empty_world ++ ["missing.pdf"] ∧
        bedrock_calls w' = bedrock_calls empty_world ∧
        store_calls w' = store_calls empty_world ∧
        points w' = points empty_world ∧
        invocations w' = invocations empty_world ++ [("run-5", "load-and-chunk")].
Proof.
  intros client ctx.
  apply (rag_ingest_pdf_unreadable client ctx empty_world); reflexivity.
Defined.

(** X15: a first run of the query pipeline in which the question is
    embedded, the store answers and the generation response yields an answer
    sends two requests to Bedrock, the embedding of the question and then
    the generation request whose prompt holds the context block of the texts
    just retrieved and the question, queries the store once with the
    question's vector and [top_k] (5 when the event gives none), leaves the
    collection as it is, and returns the answer with the retrieved sources
    and the number of retrieved contexts. *)
Theorem rag_query_pdf_ai_first_run svc (ctx : Context query_event) w query_vec res answer :
  let q := question (event_data ctx) in
  let k := default 5 (ev_top_k (event_data ctx)) in
  let found := nearest svc query_vec k (points w) in
  let block := context_block_of (hit_text <$> found) in
  cached (step_records w !! (run_id ctx, "embed-and-search")) = None →
  cached (step_records w !! (run_id ctx, "llm-answer-bedrock")) = None →
  embedding1 svc (bedrock_calls w) q = Returned query_vec →
  qdrant_fault svc (store_calls w) (Search query_vec k) = None →
  bedrock_client svc (bedrock_calls w ++ [embed_request q]) (llm_request block q)
    = Returned res →
  answer_of res = Returned answer →
  ∃ w',
    rag_query_pdf_ai svc ctx w
    = (Returned (JObj [("answer", JStr answer);
                       ("sources", JArr (JStr <$> (hit_source <$> found)));
                       ("num_contexts", JNumber (str_of_nat (length found)))]), w') ∧
    bedrock_calls w' = bedrock_calls w ++ [embed_request q; llm_request block q] ∧
    store_calls w' = store_calls w ++ [Search query_vec k] ∧
    points w' = points w ∧
    invocations w'
    = invocations w ++ [(run_id ctx, "embed-and-search"); (run_id ctx, "llm-answer-bedrock")].
Proof.
  intros q k found block Hfresh1 Hfresh2 Hembed Hstore Hllm Hanswer.
  unfold rag_query_pdf_ai, bind. fold q k.
  rewrite (step_run_invoked _ _ _ _ Hfresh1). simpl.
  rewrite _search_unfold. simpl. rewrite Hembed, Hstore. fold found. simpl.
  rewrite step_run_invoked
    by (simpl; rewrite !lookup_insert_ne by apply search_key_ne_llm_key; done).
  simpl. fold block. unfold _invoke_llm, invoke_model. simpl.
  rewrite Hllm. unfold lift. rewrite Hanswer. unfold ret, query_result. simpl.
  rewrite length_fmap. eexists. split; [reflexivity|]. simpl.
  by rewrite <- !app_assoc.
Qed.

Lemma rag_query_pdf_ai_first_run_witness :
  let client := services_of (bedrock answered) in
  let ctx := {| run_id := "run-6";
                event_data := {| question := "What is X?"; ev_top_k := None |} |} in
  let w := (rag_ingest_pdf client ingest_ctx empty_world).2 in
  let found := nearest client (JArr [JNumber "10"]) 5 (points w) in
  let block := context_block_of (hit_text <$> found) in
  ∃ w',
    rag_query_pdf_ai client ctx w
    = (Returned (JObj [("answer", JStr "Paris.");
                       ("sources", JArr (JStr <$> (hit_source <$> found)));
                       ("num_contexts", JNumber (str_of_nat (length found)))]), w') ∧
    bedrock_calls w'
    = bedrock_calls w ++ [embed_request "What is X?"; llm_request block "What is X?"] ∧
    store_calls w' = store_calls w ++ [Search (JArr [JNumber "10"]) 5] ∧
    points w' = points w ∧
    invocations w'
    = invocations w ++ [("run-6", "embed-and-search"); ("run-6", "llm-answer-bedrock")].
Proof.
  intros client ctx w found block.
  apply (rag_query_pdf_ai_first_run client ctx w (JArr [JNumber "10"])
           (JObj [("content", JArr [JObj [("type", JStr "text"); ("text", JStr " Paris. ")]])])
           "Paris."); vm_compute; reflexivity.
Defined.

(** ** [strip] *)

Lemma strip_prefix_Some p : ∀ s s', strip_prefix p s = Some s' → s = p +:+ s'.
Proof.
  induction p as [|a p IH]; intros s s' Hs; simpl in Hs.
  - by injection Hs as ->.
  - destruct s as [|b s]; [done|].
    destruct (Ascii.eqb_spec a b) as [->|]; [|done].
    apply IH in Hs as ->. done.
Qed.

Lemma strip_prefix_append p : ∀ s s' t,
  strip_prefix p s = Some s' → strip_prefix p (s +:+ t) = Some (s' +:+ t).
Proof.
  induction p as [|a p IH]; intros s s' t Hs; simpl in Hs.
  - by injection Hs as ->.
  - destruct s as [|b s]; [done|].
    change (String b s +:+ t) with (String b (s +:+ t)). simpl.
    destruct (Ascii.eqb a b); [|done]. by apply IH.
Qed.

Lemma length_append (a b : string) :
  String.length (a +:+ b) = (String.length a + String.length b)%nat.
Proof.
  induction a as [|x a IH]; [done|].
  change (String x a +:+ b) with (String x (a +:+ b)). simpl. by rewrite IH.
Qed.

Lemma lstrip1_shorter ws : ∀ s s',
  Forall (λ w, w ≠ "") ws → lstrip1 ws s = Some s' →
  (String.length s' < String.length s)%nat.
Proof.
  induction ws as [|w ws IH]; intros s s' Hne Hs; simpl in Hs; [done|].
  apply Forall_cons in Hne as [Hw Hne].
  destruct (strip_prefix w s) as [r|] eqn:Hr; [|by apply IH].
  injection Hs as <-. apply strip_prefix_Some in Hr as ->.
  rewrite length_append. destruct w; [done|]. simpl. lia.
Qed.

Lemma lstrip1_append ws : ∀ s t,
  is_Some (lstrip1 ws s) → is_Some (lstrip1 ws (s +:+ t)).
Proof.
  induction ws as [|w ws IH]; intros s t Hs; simpl in *; [done|].
  destruct (strip_prefix w s) as [r|] eqn:Hr.
  - by rewrite (strip_prefix_append _ _ _ t Hr).
  - destruct (strip_prefix w (s +:+ t)); [done|]. by apply IH.
Qed.

(** With enough fuel, stripping stops at a string that starts with none of
    the patterns. *)
Lemma lstrip_fuel_done ws fuel : ∀ s,
  Forall (λ w, w ≠ "") ws → (String.length s ≤ fuel)%nat →
  lstrip1 ws (lstrip_fuel fuel ws s) = None.
Proof.
  induction fuel as [|fuel IH]; intros s Hne Hlen; simpl.
  - destruct (lstrip1 ws s) as [s'|] eqn:Hs; [|done].
    apply lstrip1_shorter in Hs; [lia|done].
  - destruct (lstrip1 ws s) as [s'|] eqn:Hs; [|done].
    apply IH; [done|]. apply lstrip1_shorter in Hs; [lia|done].
Qed.

(** What stripping leaves is the end of the string. *)
Lemma lstrip_fuel_suffix ws fuel : ∀ s, ∃ p, s = p +:+ lstrip_fuel fuel ws s.
Proof.
  induction fuel as [|fuel IH]; intros s; simpl; [by exists ""|].
  destruct (lstrip1 ws s) as [s'|] eqn:Hs; [|by exists ""].
  assert (∃ w, s = w +:+ s') as [w ->].
  { clear IH. induction ws as [|w ws IHws]; simpl in Hs; [done|].
    destruct (strip_prefix w s) as [r|] eqn:Hr; [|by apply IHws].
    injection Hs as <-. exists w. by apply strip_prefix_Some. }
  destruct (IH s') as [p Hp]. exists (w +:+ p). by rewrite append_assoc, <- Hp.
Qed.

Lemma string_of_list_ascii_app l1 l2 :
  string_of_list_ascii (l1 ++ l2) = string_of_list_ascii l1 +:+ string_of_list_ascii l2.
Proof.
  induction l1 as [|a l1 IH]; [done|]. simpl. rewrite IH. done.
Qed.

Lemma list_ascii_of_string_append a b :
  list_ascii_of_string (a +:+ b) = list_ascii_of_string a ++ list_ascii_of_string b.
Proof.
  induction a as [|x a IH]; [done|].
  change (String x a +:+ b) with (String x (a +:+ b)). simpl. by rewrite IH.
Qed.

Lemma string_rev_involutive s : string_rev (string_rev s) = s.
Proof.
  unfold string_rev.
  by rewrite list_ascii_of_string_of_list_ascii, rev_involutive,
    string_of_list_ascii_of_string.
Qed.

Lemma string_rev_append a b : string_rev (a +:+ b) = string_rev b +:+ string_rev a.
Proof.
  unfold string_rev. by rewrite list_ascii_of_string_append, rev_app_distr,
    string_of_list_ascii_app.
Qed.

Lemma length_string_rev s : String.length (string_rev s) = String.length s.
Proof.
  assert (∀ l, String.length (string_of_list_ascii l) = length l) as Hl.
  { induction l as [|a l IH]; simpl; [done|]. by rewrite IH. }
  assert (∀ r, length (list_ascii_of_string r) = String.length r) as Hr.
  { induction r as [|a r IH]; simpl; [done|]. by rewrite IH. }
  unfold string_rev. by rewrite Hl, length_rev, Hr.
Qed.

Lemma whitespace_nonempty :
  Forall (λ w, w ≠ "") whitespace ∧ Forall (λ w, w ≠ "") (string_rev <$> whitespace).
Proof. split; vm_compute; repeat constructor; discriminate. Qed.

Lemma strip_no_surrounding_space s :
  ¬ starts_with_space (strip s) ∧ ¬ ends_with_space (strip s).
Proof.
  destruct whitespace_nonempty as [Hws Hrev].
  unfold starts_with_space, ends_with_space, strip, rstrip.
  set (l := lstrip s).
  assert (lstrip1 whitespace l = None) as Hl
    by (by apply lstrip_fuel_done).
  split.
  - intros Hstart.
    destruct (lstrip_fuel_suffix (string_rev <$> whitespace) (String.length l) (string_rev l))
      as [p Hp].
    set (x := lstrip_fuel _ _ _) in *.
    assert (l = string_rev x +:+ string_rev p) as Hprefix.
    { by rewrite <- string_rev_append, <- Hp, string_rev_involutive. }
    apply (lstrip1_append _ _ (string_rev p)) in Hstart.
    rewrite <- Hprefix, Hl in Hstart. by destruct Hstart.
  - rewrite string_rev_involutive, lstrip_fuel_done; [by intros []|done|].
    by rewrite length_string_rev.
Qed.

Lemma answer_of_is_stripped res answer :
  answer_of res = Returned answer → ∃ s, answer = strip s.
Proof.
  unfold answer_of.
  destruct (py_get res "content" _) as [content|]; [|done].
  destruct (py_index0 content) as [first|]; [|done].
  destruct (py_get first "text" _) as [[| | |s| |]|]; try done.
  intros [= <-]. by exists s.
Qed.

(** X16: an answer read from a generation response never starts and never
    ends with a whitespace character. *)
Theorem answer_has_no_surrounding_space res answer :
  answer_of res = Returned answer →
  ¬ starts_with_space answer ∧ ¬ ends_with_space answer.
Proof.
  intros Ha. apply answer_of_is_stripped in Ha as [s ->].
  apply strip_no_surrounding_space.
Qed.

Lemma answer_has_no_surrounding_space_witness :
  ¬ starts_with_space "Paris." ∧ ¬ ends_with_space "Paris.".
Proof.
  apply (answer_has_no_surrounding_space
           (JObj [("content", JArr [JObj [("text", JStr " Paris. ")]])])).
  vm_compute. reflexivity.
Defined.

(** X17: when the question cannot be embedded, a first run of the query
    pipeline raises the exception of that call in its search step: the store
    is not queried and no generation request is sent. *)
Theorem rag_query_pdf_ai_embedding_failure svc (ctx : Context query_event) w e :
  let q := question (event_data ctx) in
  cached (step_records w !! (run_id ctx, "embed-and-search")) = None →
  embedding1 svc (bedrock_calls w) q = Raised e →
  ∃ w', rag_query_pdf_ai svc ctx w = (Raised e, w') ∧
        bedrock_calls w' = bedrock_calls w ++ [embed_request q] ∧
        store_calls w' = store_calls w ∧
        invocations w' = invocations w ++ [(run_id ctx, "embed-and-search")].
Proof.
  intros q Hfresh Hembed. unfold rag_query_pdf_ai, bind. fold q.
  rewrite (step_run_invoked _ _ _ _ Hfresh). simpl.
  rewrite _search_unfold. simpl. rewrite Hembed.
  eexists. split; [reflexivity|]. done.
Qed.

Lemma rag_query_pdf_ai_embedding_failure_witness :
  let client := services_of (bedrock answered) in
  let ctx := {| run_id := "run-7";
                event_data := {| question := "boom"; ev_top_k := Some 2 |} |} in
  ∃ w', rag_query_pdf_ai client ctx empty_world
        = (Raised (PyExc "ClientError" "ThrottlingException"), w') ∧
        bedrock_calls w' = bedrock_calls empty_world ++ [embed_request "boom"] ∧
        store_calls w' = store_calls empty_world ∧
        invocations w' = invocations empty_world ++ [("run-7", "embed-and-search")].
Proof.
  intros client ctx.
  apply (rag_query_pdf_ai_embedding_failure client ctx empty_world); reflexivity.
Defined.
